(** * OpenKS, Paddle NER driver: label alignment and BIO span decoding

    Shallow embedding of the two data-handling functions of
    [openks/models/paddle/ner.py]:

    - [tokenize_and_align_labels] (lines 19-35), which pads and truncates
      the word-level labels of an example to the tokenizer's output length;
    - [parse_decodes] (lines 37-65), which rebuilds (text, type) spans from
      the predicted tag ids of each example.

    Python values are modelled as follows.  An [int] is a [Z].  A [str] is
    the list of its Unicode code points ([list N]): iterating over a Python
    string yields code points, which is what the decoding loop does.  A
    [list] is a [list]; the dictionary [id2label] is a [gmap Z (list N)].
    A raised exception is a value of [result].

    A second model of the same two functions keeps the Python objects in
    a store, with references, in-place updates and a tokenizer that has a
    state.  It is related to the first model and used to compare two
    runs. *)

From stdpp Require Import base list gmap strings.
From Stdlib Require Import ZArith Lia.

Local Open Scope Z_scope.

(** ** Python values and exceptions *)

(** A Python string: the sequence of its code points. *)
Abbreviation pychar := N (only parsing).
Abbreviation pystr := (list N) (only parsing).

(** The exceptions the two functions can raise: [d[k]] on a missing key and
    [l[i]] on an index out of range. *)
Inductive exn : Type :=
| KeyError (key : Z)
| IndexError.

Inductive result (A : Type) : Type :=
| Ok (a : A)
| Raise (e : exn).
Arguments Ok {A} a.
Arguments Raise {A} e.

Definition rbind {A B : Type} (m : result A) (k : A -> result B) : result B :=
  match m with
  | Ok a => k a
  | Raise e => Raise e
  end.

Notation "'try' x <- m ; k" := (rbind m (fun x => k))
  (at level 10, x name, m at level 100, k at level 200,
   format "'[v' 'try'  x  <-  m ; '/' k ']'").

(** A string literal of the source, as code points (ASCII literals only). *)
Definition lit (s : string) : pystr :=
  map Ascii.N_of_ascii (String.list_ascii_of_string s).

(** [len(l)] *)
Definition len {A : Type} (l : list A) : Z := Z.of_nat (length l).

(** Bound of a slice: a negative bound counts from the end, and every bound
    is clipped to [0 .. n]. *)
Definition py_clip (n i : Z) : Z :=
  if i <? 0 then Z.max (i + n) 0 else Z.min i n.

(** [l[lo:hi]]; never raises. *)
Definition py_slice {A : Type} (lo hi : Z) (l : list A) : list A :=
  let n := len l in
  let lo' := py_clip n lo in
  let hi' := py_clip n hi in
  take (Z.to_nat (hi' - lo')) (drop (Z.to_nat lo') l).

(** [l * k]: the empty list when [k <= 0]. *)
Definition py_mul {A : Type} (l : list A) (k : Z) : list A :=
  mjoin (replicate (Z.to_nat k) l).

(** [l[i]] for an index [i >= 0] produced by [enumerate] or a literal. *)
Definition py_getitem {A : Type} (l : list A) (i : nat) : result A :=
  match l !! i with
  | Some x => Ok x
  | None => Raise IndexError
  end.

(** [d[k]] on a dictionary. *)
Definition dict_getitem (d : gmap Z (list N)) (k : Z) : result pystr :=
  match d !! k with
  | Some v => Ok v
  | None => Raise (KeyError k)
  end.

(** [s == t] on strings. *)
Fixpoint str_eqb (s t : pystr) : bool :=
  match s, t with
  | [], [] => true
  | a :: s', b :: t' => N.eqb a b && str_eqb s' t'
  | _, _ => false
  end.

(** [s.startswith(p)] *)
Fixpoint py_startswith (s p : pystr) {struct p} : bool :=
  match p, s with
  | [], _ => true
  | a :: p', b :: s' => N.eqb a b && py_startswith s' p'
  | _ :: _, [] => false
  end.

(** [s.split(sep)] for a one-character separator: the pieces between the
    occurrences of [sep]; always at least one piece. *)
Fixpoint py_split (sep : pychar) (s : pystr) : list pystr :=
  match s with
  | [] => [[]]
  | c :: s' =>
      if N.eqb c sep then [] :: py_split sep s'
      else match py_split sep s' with
           | p :: ps => (c :: p) :: ps
           | [] => [[c]]
           end
  end.

(** ["".join(l)] *)
Definition py_join (l : list pystr) : pystr := mjoin l.

(** The character [-]. *)
Definition hyphen : pychar := 45%N.

(** ** The label aligner *)

(** An example of the dataset: a dictionary with the keys ['tokens'] and
    ['labels']. *)
Module Example.
Record t : Type := mk { tokens : list pystr; labels : list Z }.
End Example.

(** The tokenizer's output dictionary.  The key ['labels'] is absent from
    what the tokenizer returns and is set by [tokenize_and_align_labels]. *)
Module TokenizedInput.
Record t : Type := mk {
  input_ids : list Z;
  token_type_ids : list Z;
  seq_len : Z;
  labels : option (list Z)
}.
Definition set_labels (ti : t) (ls : list Z) : t :=
  {| input_ids := input_ids ti;
     token_type_ids := token_type_ids ti;
     seq_len := seq_len ti;
     labels := Some ls |}.
End TokenizedInput.

(** Lines 30-31: when fewer than [len(labels)] positions remain beside the
    two boundary positions, the labels are cut to [labels[:n - 2]], where
    [n] is [len(tokenized_input['input_ids'])]. *)
Definition kept_labels (n : Z) (labels : list Z) : list Z :=
  if n - 2 <? len labels then py_slice 0 (n - 2) labels else labels.

Section Aligner.

(** The tokenizer is an external collaborator: called on the tokens of
    the example and [max_seq_len], it returns its output dictionary or
    raises. *)
Variable tokenizer : list pystr -> Z -> result TokenizedInput.t.

Definition tokenize_and_align_labels (example : Example.t)
    (no_entity_id : Z) (max_seq_len : Z) : result TokenizedInput.t :=
  let labels := Example.labels example in
  let example := Example.tokens example in
  try tokenized_input <- tokenizer example max_seq_len;
  let input_ids := TokenizedInput.input_ids tokenized_input in
  (* -2 for [CLS] and [SEP] *)
  let labels := kept_labels (len input_ids) labels in
  let out := [no_entity_id] ++ labels ++ [no_entity_id] in
  let out := out ++ py_mul [no_entity_id] (len input_ids - len out) in
  Ok (TokenizedInput.set_labels tokenized_input out).

End Aligner.

(** A tokenizer that answers a fixed sequence of ids, used to run the
    aligner on concrete inputs. *)
Definition canned_tokenizer (ids : list Z) : list pystr -> Z -> result TokenizedInput.t :=
  fun _ _ =>
    Ok {| TokenizedInput.input_ids := ids;
          TokenizedInput.token_type_ids := map (fun _ => 0) ids;
          TokenizedInput.seq_len := len ids;
          TokenizedInput.labels := None |}.

(** ** The span decoder *)

(** The tag literals of the decoding loop. *)
Definition B_prefix : pystr := lit "B-".
Definition O_tag : pystr := lit "O".

(** The variables of the loop over one sentence: the closed spans
    [sent_out], the recorded types [tags_out] and the open accumulator
    [words]. *)
Record walk_state : Type := mk_walk {
  sent_out : list pystr;
  tags_out : list pystr;
  words : pystr
}.

Definition walk_init : walk_state :=
  {| sent_out := []; tags_out := []; words := [] |}.

(** The test of line 49: [t.startswith('B-') or t == 'O']. *)
Definition opens_span (t : pystr) : bool :=
  py_startswith t B_prefix || str_eqb t O_tag.

(** One iteration of the loop of lines 48-60 on the character [s] and the
    tag [t]. *)
Definition walk_step (st : walk_state) (s : pychar) (t : pystr) : result walk_state :=
  if opens_span t then
    let sent_out' :=
      if 0 <? len (words st) then sent_out st ++ [words st] else sent_out st in
    if py_startswith t B_prefix then
      try ty <- py_getitem (py_split hyphen t) 1;
      Ok {| sent_out := sent_out'; tags_out := tags_out st ++ [ty]; words := [s] |}
    else
      Ok {| sent_out := sent_out'; tags_out := tags_out st ++ [t]; words := [s] |}
  else (* an I- tag *)
    Ok {| sent_out := sent_out st; tags_out := tags_out st; words := words st ++ [s] |}.

(** [for s, t in zip(sent, tags)]: characters and tags in lockstep, until
    the shorter of the two is exhausted. *)
Fixpoint walk (st : walk_state) (sent : pystr) (tags : list pystr) : result walk_state :=
  match sent, tags with
  | s :: sent', t :: tags' =>
      try st' <- walk_step st s t;
      walk st' sent' tags'
  | _, _ => Ok st
  end.

(** Lines 61-62: the accumulator is appended when a type was recorded whose
    span was not. *)
Definition fixup (st : walk_state) : walk_state :=
  if len (sent_out st) <? len (tags_out st)
  then {| sent_out := sent_out st ++ [words st]; tags_out := tags_out st; words := words st |}
  else st.

(** Lines 45-62 for one sentence: the span list and the type list after
    the fix-up. *)
Definition decode_tags (sent : pystr) (tags : list pystr) : result (list pystr * list pystr) :=
  try st <- walk walk_init sent tags;
  let st := fixup st in
  Ok (sent_out st, tags_out st).

(** [[id2label[x] for x in ids]] *)
Fixpoint lookup_tags (id2label : gmap Z (list N)) (ids : list Z) : result (list pystr) :=
  match ids with
  | [] => Ok []
  | x :: ids' =>
      try t <- dict_getitem id2label x;
      try ts <- lookup_tags id2label ids';
      Ok (t :: ts)
  end.

(** [zip(a, b)] *)
Fixpoint py_zip {A B : Type} (a : list A) (b : list B) : list (A * B) :=
  match a, b with
  | x :: a', y :: b' => (x, y) :: py_zip a' b'
  | _, _ => []
  end.

Section Decoder.

(** [str((s, t))], the display form of a pair of strings, is Python's and
    is left abstract. *)
Variable str_pair : pystr * pystr -> pystr.

Variable input_words : list Example.t.
Variable id2label : gmap Z (list N).

(** The body of the loop over the examples (lines 43-62), for the example
    at position [idx] with valid length [end_], on the flattened
    [decodes]: the (span, type) pairs that line 64 renders. *)
Definition decode_example (decodes : list (list Z)) (idx : nat) (end_ : Z)
    : result (list (pystr * pystr)) :=
  try example <- py_getitem input_words idx;
  let sent := py_join (Example.tokens example) in
  try row <- py_getitem decodes idx;
  try tags <- lookup_tags id2label (py_slice 1 end_ row);
  try out <- decode_tags sent tags;
  Ok (py_zip out.1 out.2).

(** [for idx, end in enumerate(lens)], from index [idx] on. *)
Fixpoint decode_from (decodes : list (list Z)) (idx : nat) (lens : list Z)
    : result (list (list (pystr * pystr))) :=
  match lens with
  | [] => Ok []
  | end_ :: lens' =>
      try o <- decode_example decodes idx end_;
      try os <- decode_from decodes (S idx) lens';
      Ok (o :: os)
  end.

(** The structured result of [parse_decodes]: one list of pairs per
    example. *)
Definition parse_decodes_pairs (decodes : list (list (list Z))) (lens : list (list Z))
    : result (list (list (pystr * pystr))) :=
  let decodes := mjoin decodes in
  let lens := mjoin lens in
  decode_from decodes 0%nat lens.

Definition parse_decodes (decodes : list (list (list Z))) (lens : list (list Z))
    : result (list pystr) :=
  try outputs <- parse_decodes_pairs decodes lens;
  Ok (map (fun pairs => py_join (map str_pair pairs)) outputs).

End Decoder.

(** ** Notions used to state the properties *)

(** The characters of [s] before the first occurrence of [sep]. *)
Fixpoint before_sep (sep : pychar) (s : pystr) : pystr :=
  match s with
  | [] => []
  | c :: s' => if N.eqb c sep then [] else c :: before_sep sep s'
  end.

(** The type that [walk_step] records for a tag that opens a span. *)
Definition recorded_type (t : pystr) : pystr :=
  if py_startswith t B_prefix then before_sep hyphen (drop 2 t) else t.

(** The state after an iteration on a tag that opens a span, and on a
    continuation tag. *)
Definition open_span (st : walk_state) (s : pychar) (ty : pystr) : walk_state :=
  {| sent_out := if 0 <? len (words st) then sent_out st ++ [words st] else sent_out st;
     tags_out := tags_out st ++ [ty];
     words := [s] |}.

Definition extend_span (st : walk_state) (s : pychar) : walk_state :=
  {| sent_out := sent_out st; tags_out := tags_out st; words := words st ++ [s] |}.

(** The characters the loop has consumed: the closed spans followed by the
    open accumulator. *)
Definition consumed (st : walk_state) : pystr :=
  mjoin (sent_out st) ++ words st.

(** Well-formed BIO sequences: every tag is [O], [B-X] or [I-X]; an [I-X]
    only follows a [B-X] or an [I-X] of the same type [X]; in particular
    the sequence does not begin with an [I-] tag. *)
Definition I_prefix : pystr := lit "I-".

Fixpoint bio_from (cur : option pystr) (tags : list pystr) : bool :=
  match tags with
  | [] => true
  | t :: tags' =>
      if str_eqb t O_tag then bio_from None tags'
      else if py_startswith t B_prefix then bio_from (Some (drop 2 t)) tags'
      else if py_startswith t I_prefix then
        match cur with
        | Some ty => str_eqb (drop 2 t) ty && bio_from cur tags'
        | None => false
        end
      else false
  end.

Definition well_formed_bio (tags : list pystr) : bool := bio_from None tags.

(** The first tag, if any, opens a span. *)
Definition head_opens (tags : list pystr) : bool :=
  match tags with
  | [] => true
  | t :: _ => opens_span t
  end.

(** The loop invariant on the lengths of the two output lists: the
    accumulator is not empty and [d] recorded types still wait for their
    span ([d] is 1 after a first tag that opens a span, 0 after a first tag
    that continues one). *)
Definition pending (d : nat) (st : walk_state) : Prop :=
  words st <> [] /\ length (tags_out st) = (length (sent_out st) + d)%nat.

(** ** Concrete inputs *)

(** A label table in the shape the driver builds from the dataset's label
    list: three entity types, [O] last. *)
Definition msra_id2label : gmap Z (list N) :=
  list_to_map [(0, lit "B-PER"); (1, lit "I-PER"); (2, lit "B-ORG");
               (3, lit "I-ORG"); (4, lit "B-LOC"); (5, lit "I-LOC"); (6, lit "O")].

(** The sentence of five characters U+5317 U+4EAC U+6B22 U+8FCE U+4F60,
    one character per token. *)
Definition bei : pystr := [0x5317%N].
Definition jing : pystr := [0x4eac%N].
Definition huan : pystr := [0x6b22%N].
Definition ying : pystr := [0x8fce%N].
Definition ni : pystr := [0x4f60%N].

Definition beijing : Example.t :=
  Example.mk [bei; jing; huan; ying; ni] [4; 5; 6; 6; 6].

(** Predicted ids for it: a boundary position, then B-LOC I-LOC O O O, then
    the closing boundary position. *)
Definition beijing_row : list Z := [6; 4; 5; 6; 6; 6; 6].

(** The spans expected for it: the first two characters as one LOC span,
    then one [O] span per character. *)
Definition beijing_spans : list (pystr * pystr) :=
  [(bei ++ jing, lit "LOC"); (huan, lit "O"); (ying, lit "O"); (ni, lit "O")].

(** ** The driver's use of the aligner *)

(** Lines 106-114 of [run]: the transformation mapped over the datasets,
    [partial(tokenize_and_align_labels, tokenizer=tokenizer,
    no_entity_id=no_entity_id, max_seq_len=args.max_seq_length)] with
    [label_num = len(label_list)] and [no_entity_id = label_num - 1]. *)
Definition trans_func (tokenizer : list pystr -> Z -> result TokenizedInput.t)
    (label_list : list pystr) (max_seq_length : Z) (example : Example.t)
    : result TokenizedInput.t :=
  let label_num := len label_list in
  let no_entity_id := label_num - 1 in
  tokenize_and_align_labels tokenizer example no_entity_id max_seq_length.

(** ** A reference segmentation of a tagged text

    Read from the right, a character whose tag opens a span starts a group
    that takes the characters gathered so far; a character whose tag
    continues a span is gathered.  [bio_groups sent tags] is the pair of
    the characters that precede the first opening tag and of the groups,
    each with the type recorded for its opening tag.  Characters and tags
    are paired up to the shorter of the two. *)
Fixpoint bio_groups (sent : pystr) (tags : list pystr)
    : pystr * list (pystr * pystr) :=
  match sent, tags with
  | s :: sent', t :: tags' =>
      let r := bio_groups sent' tags' in
      if opens_span t then ([], (s :: r.1, recorded_type t) :: r.2)
      else (s :: r.1, r.2)
  | _, _ => ([], [])
  end.

(** The list holding [w] when [w] is not empty: what line 50-51 appends. *)
Definition flush (w : pystr) : list pystr :=
  match w with
  | [] => []
  | _ :: _ => [w]
  end.

(** ** The two functions on a store of Python objects

    In Python the arguments of the two functions are references to
    objects that other code shares: the example dictionary and its lists,
    the batches of decoded rows, the label table.  A call can change them,
    and a later call reads what an earlier one left.  This second model
    keeps the objects in a store.  A value is an integer, a string (both
    immutable) or a reference; a list holds values, a dictionary maps
    strings to values and a table maps integers to values; list literals,
    slices, [+] and [*] allocate a new list, while [append], [+=] on a list
    and the assignment to a key change an object in place.  The tokenizer
    keeps a state of its own between calls. *)

Inductive value : Type :=
| VInt (z : Z)
| VStr (s : list N)
| VRef (r : nat).

Inductive obj : Type :=
| OList (items : list value)
| ODict (fields : gmap string value)
| OTable (entries : gmap Z value).

(** What a run can raise: the exceptions of the first model, [KeyError] on
    a string key, and [TypeError] (also [AttributeError]) when a value is
    not of the kind an operation needs. *)
Inductive error : Type :=
| Exn (e : exn)
| KeyErrorStr (k : string)
| TypeError.

Inductive outcome (A : Type) : Type :=
| Val (a : A)
| Exc (e : error).
Arguments Val {A} a.
Arguments Exc {A} e.

Section Store.

(** The state a tokenizer keeps between its calls. *)
Variable T : Type.

Record state : Type := mk_state { heap : list obj; tok : T }.

Definition M (A : Type) : Type := state -> outcome A * state.

Definition ret {A : Type} (a : A) : M A := fun st => (Val a, st).

Definition raise {A : Type} (e : error) : M A := fun st => (Exc e, st).

Definition bind {A B : Type} (m : M A) (k : A -> M B) : M B :=
  fun st =>
    match m st with
    | (Val a, st') => k a st'
    | (Exc e, st') => (Exc e, st')
    end.

Definition lift {A : Type} (r : result A) : M A :=
  match r with
  | Ok a => ret a
  | Raise e => raise (Exn e)
  end.

(** The object a reference points to. *)
Definition load (r : nat) : M obj :=
  fun st =>
    match heap st !! r with
    | Some o => (Val o, st)
    | None => (Exc TypeError, st)
    end.

(** A new object, at the next free reference. *)
Definition alloc (o : obj) : M nat :=
  fun st => (Val (length (heap st)), {| heap := heap st ++ [o]; tok := tok st |}).

(** The object at [r] replaced. *)
Definition store_at (r : nat) (o : obj) : M unit :=
  fun st => (Val tt, {| heap := <[r := o]> (heap st); tok := tok st |}).

Definition as_int (v : value) : M Z :=
  match v with VInt z => ret z | _ => raise TypeError end.

Definition as_str (v : value) : M (list N) :=
  match v with VStr s => ret s | _ => raise TypeError end.

Definition as_ref (v : value) : M nat :=
  match v with VRef r => ret r | _ => raise TypeError end.

Definition list_items (v : value) : M (list value) :=
  bind (as_ref v) (fun r =>
  bind (load r) (fun o =>
  match o with OList items => ret items | _ => raise TypeError end)).

Definition dict_fields (v : value) : M (gmap string value) :=
  bind (as_ref v) (fun r =>
  bind (load r) (fun o =>
  match o with ODict fields => ret fields | _ => raise TypeError end)).

Definition table_entries (v : value) : M (gmap Z value) :=
  bind (as_ref v) (fun r =>
  bind (load r) (fun o =>
  match o with OTable entries => ret entries | _ => raise TypeError end)).

(** [[v1, ..., vn]] *)
Definition new_list (items : list value) : M value :=
  bind (alloc (OList items)) (fun r => ret (VRef r)).

(** [len(l)] *)
Definition list_len (l : value) : M Z :=
  bind (list_items l) (fun items => ret (len items)).

(** [l[i]] for [i >= 0] *)
Definition list_get (l : value) (i : nat) : M value :=
  bind (list_items l) (fun items => lift (py_getitem items i)).

(** [l[lo:hi]]: a new list *)
Definition list_slice (l : value) (lo hi : Z) : M value :=
  bind (list_items l) (fun items => new_list (py_slice lo hi items)).

(** [l + k]: a new list *)
Definition list_add (l k : value) : M value :=
  bind (list_items l) (fun a =>
  bind (list_items k) (fun b => new_list (a ++ b))).

(** [l * n]: a new list *)
Definition list_mul (l : value) (n : Z) : M value :=
  bind (list_items l) (fun a => new_list (py_mul a n)).

(** [l.append(v)]: in place *)
Definition list_append (l : value) (v : value) : M unit :=
  bind (as_ref l) (fun r =>
  bind (list_items l) (fun items => store_at r (OList (items ++ [v])))).

(** [l += k] on a list: [l] is extended in place *)
Definition list_extend (l k : value) : M unit :=
  bind (as_ref l) (fun r =>
  bind (list_items l) (fun a =>
  bind (list_items k) (fun b => store_at r (OList (a ++ b))))).

(** [d[k]] on a dictionary with string keys *)
Definition dict_get (d : value) (k : string) : M value :=
  bind (dict_fields d) (fun fields =>
  match fields !! k with
  | Some v => ret v
  | None => raise (KeyErrorStr k)
  end).

(** [d[k] = v]: in place *)
Definition dict_set (d : value) (k : string) (v : value) : M unit :=
  bind (as_ref d) (fun r =>
  bind (dict_fields d) (fun fields => store_at r (ODict (<[k := v]> fields)))).

(** [d[k]] on a table with integer keys *)
Definition table_get (d : value) (k : Z) : M value :=
  bind (table_entries d) (fun entries =>
  match entries !! k with
  | Some v => ret v
  | None => raise (Exn (KeyError k))
  end).

(** The strings of a list of values. *)
Fixpoint strs_of (items : list value) : M (list (list N)) :=
  match items with
  | [] => ret []
  | v :: items' =>
      bind (as_str v) (fun s =>
      bind (strs_of items') (fun ss => ret (s :: ss)))
  end.

(** [for x in items: l.append(x)] *)
Fixpoint append_each (l : value) (items : list value) : M unit :=
  match items with
  | [] => ret tt
  | x :: items' => bind (list_append l x) (fun _ => append_each l items')
  end.

(** *** The label aligner *)

(** The tokenizer: from its state, the tokens and [max_seq_len] it answers
    or raises, and leaves a new state. *)
Variable tokenizer : T -> list (list N) -> Z -> result TokenizedInput.t * T.

(** The call of the tokenizer on the list of tokens.  Its answer comes
    back as a new dictionary with new lists. *)
Definition call_tokenizer (tokens : value) (max_seq_len : Z) : M value :=
  bind (list_items tokens) (fun items =>
  bind (strs_of items) (fun toks =>
  bind (fun st =>
          match tokenizer (tok st) toks max_seq_len with
          | (Ok ti, t') => (Val ti, {| heap := heap st; tok := t' |})
          | (Raise e, t') => (Exc (Exn e), {| heap := heap st; tok := t' |})
          end) (fun ti =>
  bind (new_list (map VInt (TokenizedInput.input_ids ti))) (fun ids =>
  bind (new_list (map VInt (TokenizedInput.token_type_ids ti))) (fun tys =>
  bind (match TokenizedInput.labels ti with
        | Some ls =>
            bind (new_list (map VInt ls)) (fun l =>
            ret (<["labels" := l]> (∅ : gmap string value)))
        | None => ret ∅
        end) (fun fields =>
  bind (alloc (ODict (<["input_ids" := ids]>
                      (<["token_type_ids" := tys]>
                       (<["seq_len" := VInt (TokenizedInput.seq_len ti)]> fields)))))
    (fun r => ret (VRef r)))))))).

(** Lines 19-35, statement by statement. *)
Definition h_tokenize_and_align_labels (example : value)
    (no_entity_id max_seq_len : Z) : M value :=
  bind (dict_get example "labels") (fun labels =>
  bind (dict_get example "tokens") (fun example =>
  bind (call_tokenizer example max_seq_len) (fun tokenized_input =>
  (* if len(tokenized_input['input_ids']) - 2 < len(labels): *)
  bind (dict_get tokenized_input "input_ids") (fun ids =>
  bind (list_len ids) (fun n =>
  bind (list_len labels) (fun m =>
  bind (if n - 2 <? m
        then (* labels = labels[:len(tokenized_input['input_ids']) - 2] *)
          bind (dict_get tokenized_input "input_ids") (fun ids =>
          bind (list_len ids) (fun n => list_slice labels 0 (n - 2)))
        else ret labels) (fun labels =>
  (* tokenized_input['labels'] = [no_entity_id] + labels + [no_entity_id] *)
  bind (new_list [VInt no_entity_id]) (fun a =>
  bind (list_add a labels) (fun b =>
  bind (new_list [VInt no_entity_id]) (fun c =>
  bind (list_add b c) (fun d =>
  bind (dict_set tokenized_input "labels" d) (fun _ =>
  (* tokenized_input['labels'] += [no_entity_id] * (...) *)
  bind (dict_get tokenized_input "labels") (fun cur =>
  bind (new_list [VInt no_entity_id]) (fun e =>
  bind (dict_get tokenized_input "input_ids") (fun ids =>
  bind (list_len ids) (fun n =>
  bind (dict_get tokenized_input "labels") (fun cur' =>
  bind (list_len cur') (fun m =>
  bind (list_mul e (n - m)) (fun f =>
  bind (list_extend cur f) (fun _ =>
  bind (dict_set tokenized_input "labels" cur) (fun _ =>
  ret tokenized_input))))))))))))))))))))).

(** *** The span decoder *)

(** [str((s, t))], as in the first model. *)
Variable str_pair : list N * list N -> list N.

(** [[x for batch in batches for x in batch]], appended to the new list
    [out]. *)
Fixpoint h_flatten (out : value) (batches : list value) : M unit :=
  match batches with
  | [] => ret tt
  | batch :: batches' =>
      bind (list_items batch) (fun items =>
      bind (append_each out items) (fun _ => h_flatten out batches'))
  end.

(** [[id2label[x] for x in ids]], appended to the new list [out]. *)
Fixpoint h_lookup_tags (id2label out : value) (ids : list value) : M unit :=
  match ids with
  | [] => ret tt
  | x :: ids' =>
      bind (as_int x) (fun k =>
      bind (table_get id2label k) (fun t =>
      bind (list_append out t) (fun _ => h_lookup_tags id2label out ids')))
  end.

(** The loop of lines 48-60 on the lists [sent_out] and [tags_out]; the
    string [words] is rebound, not changed. *)
Fixpoint h_walk (sent_out tags_out : value) (words : list N)
    (sent : list N) (tags : list value) : M (list N) :=
  match sent, tags with
  | s :: sent', tv :: tags' =>
      bind (as_str tv) (fun t =>
      if opens_span t then
        bind (if 0 <? len words then list_append sent_out (VStr words) else ret tt)
          (fun _ =>
        if py_startswith t B_prefix then
          bind (lift (py_getitem (py_split hyphen t) 1)) (fun ty =>
          bind (list_append tags_out (VStr ty)) (fun _ =>
          h_walk sent_out tags_out [s] sent' tags'))
        else
          bind (list_append tags_out (VStr t)) (fun _ =>
          h_walk sent_out tags_out [s] sent' tags'))
      else h_walk sent_out tags_out (words ++ [s]) sent' tags')
  | _, _ => ret words
  end.

(** Lines 43-64 for the example at position [idx]. *)
Definition h_decode_example (input_words id2label decodes outputs : value)
    (idx : nat) (end_ : value) : M unit :=
  bind (list_get input_words idx) (fun example =>
  bind (dict_get example "tokens") (fun tokens =>
  bind (list_items tokens) (fun items =>
  bind (strs_of items) (fun toks =>
  let sent := py_join toks in
  bind (list_get decodes idx) (fun row =>
  bind (as_int end_) (fun e =>
  bind (list_slice row 1 e) (fun ids =>
  bind (list_items ids) (fun ids =>
  bind (new_list []) (fun tags =>
  bind (h_lookup_tags id2label tags ids) (fun _ =>
  bind (new_list []) (fun sent_out =>
  bind (new_list []) (fun tags_out =>
  bind (list_items tags) (fun tags =>
  bind (h_walk sent_out tags_out [] sent tags) (fun words =>
  bind (list_len sent_out) (fun n1 =>
  bind (list_len tags_out) (fun n2 =>
  bind (if n1 <? n2 then list_append sent_out (VStr words) else ret tt) (fun _ =>
  bind (list_items sent_out) (fun so =>
  bind (strs_of so) (fun so =>
  bind (list_items tags_out) (fun to =>
  bind (strs_of to) (fun to =>
  list_append outputs
    (VStr (py_join (map str_pair (py_zip so to))))))))))))))))))))))))).

(** [for idx, end in enumerate(lens)], from position [idx] on. *)
Fixpoint h_decode_from (input_words id2label decodes outputs : value)
    (idx : nat) (lens : list value) : M unit :=
  match lens with
  | [] => ret tt
  | end_ :: lens' =>
      bind (h_decode_example input_words id2label decodes outputs idx end_) (fun _ =>
      h_decode_from input_words id2label decodes outputs (S idx) lens')
  end.

(** Lines 37-65. *)
Definition h_parse_decodes (input_words id2label decodes lens : value) : M value :=
  bind (list_items decodes) (fun batches =>
  bind (new_list []) (fun decodes =>
  bind (h_flatten decodes batches) (fun _ =>
  bind (list_items lens) (fun batches =>
  bind (new_list []) (fun lens =>
  bind (h_flatten lens batches) (fun _ =>
  bind (new_list []) (fun outputs =>
  bind (list_items lens) (fun lens =>
  bind (h_decode_from input_words id2label decodes outputs 0 lens) (fun _ =>
  ret outputs))))))))).

End Store.


Arguments mk_state {T} heap tok.
Arguments heap {T} s.
Arguments tok {T} s.
Arguments ret {T A} a st.
Arguments raise {T A} e st.
Arguments bind {T A B} m k st.
Arguments lift {T A} r.
Arguments load {T} r st.
Arguments alloc {T} o st.
Arguments store_at {T} r o st.
Arguments as_int {T} v.
Arguments as_str {T} v.
Arguments as_ref {T} v.
Arguments list_items {T} v.
Arguments dict_fields {T} v.
Arguments table_entries {T} v.
Arguments new_list {T} items.
Arguments list_len {T} l.
Arguments list_get {T} l i.
Arguments list_slice {T} l lo hi.
Arguments list_add {T} l k.
Arguments list_mul {T} l n.
Arguments list_append {T} l v.
Arguments list_extend {T} l k.
Arguments dict_get {T} d k.
Arguments dict_set {T} d k v.
Arguments table_get {T} d k.
Arguments strs_of {T} items.
Arguments append_each {T} l items.
Arguments call_tokenizer {T} tokenizer tokens max_seq_len.
Arguments h_tokenize_and_align_labels {T} tokenizer example no_entity_id max_seq_len.
Arguments h_flatten {T} out batches.
Arguments h_lookup_tags {T} id2label out ids.
Arguments h_walk {T} sent_out tags_out words sent tags.
Arguments h_decode_example {T} str_pair input_words id2label decodes outputs idx end_.
Arguments h_decode_from {T} str_pair input_words id2label decodes outputs idx lens.
Arguments h_parse_decodes {T} str_pair input_words id2label decodes lens.


(** *** Reading values back from a store *)

Fixpoint ints_of_values (items : list value) : option (list Z) :=
  match items with
  | [] => Some []
  | VInt z :: items' =>
      match ints_of_values items' with
      | Some zs => Some (z :: zs)
      | None => None
      end
  | _ :: _ => None
  end.

Fixpoint strs_of_values (items : list value) : option (list (list N)) :=
  match items with
  | [] => Some []
  | VStr s :: items' =>
      match strs_of_values items' with
      | Some ss => Some (s :: ss)
      | None => None
      end
  | _ :: _ => None
  end.

Definition read_items (h : list obj) (v : value) : option (list value) :=
  match v with
  | VRef r =>
      match h !! r with
      | Some (OList items) => Some items
      | _ => None
      end
  | _ => None
  end.

Definition read_fields (h : list obj) (v : value) : option (gmap string value) :=
  match v with
  | VRef r =>
      match h !! r with
      | Some (ODict fields) => Some fields
      | _ => None
      end
  | _ => None
  end.

(** The list of integers, and of strings, that [v] refers to. *)
Definition read_ints (h : list obj) (v : value) : option (list Z) :=
  match read_items h v with
  | Some items => ints_of_values items
  | None => None
  end.

Definition read_strs (h : list obj) (v : value) : option (list (list N)) :=
  match read_items h v with
  | Some items => strs_of_values items
  | None => None
  end.

(** The example dictionary that [v] refers to. *)
Definition read_example (h : list obj) (v : value) : option Example.t :=
  match read_fields h v with
  | Some fields =>
      match fields !! "tokens", fields !! "labels" with
      | Some tv, Some lv =>
          match read_strs h tv, read_ints h lv with
          | Some toks, Some ls => Some (Example.mk toks ls)
          | _, _ => None
          end
      | _, _ => None
      end
  | None => None
  end.

(** The tokenizer's dictionary that [v] refers to. *)
Definition read_tokenized (h : list obj) (v : value) : option TokenizedInput.t :=
  match read_fields h v with
  | Some fields =>
      match fields !! "input_ids", fields !! "token_type_ids", fields !! "seq_len" with
      | Some iv, Some tv, Some (VInt sl) =>
          match read_ints h iv, read_ints h tv,
                match fields !! "labels" with
                | Some lv => option_map Some (read_ints h lv)
                | None => Some None
                end with
          | Some ids, Some tys, Some ls =>
              Some {| TokenizedInput.input_ids := ids;
                      TokenizedInput.token_type_ids := tys;
                      TokenizedInput.seq_len := sl;
                      TokenizedInput.labels := ls |}
          | _, _, _ => None
          end
      | _, _, _ => None
      end
  | None => None
  end.

(** The list that [v] refers to, each item read by [f]. *)
Fixpoint read_each {A : Type} (f : value -> option A) (items : list value)
    : option (list A) :=
  match items with
  | [] => Some []
  | v :: items' =>
      match f v, read_each f items' with
      | Some a, Some l => Some (a :: l)
      | _, _ => None
      end
  end.

Definition read_list {A : Type} (f : value -> option A) (h : list obj) (v : value)
    : option (list A) :=
  match read_items h v with
  | Some items => read_each f items
  | None => None
  end.

(** Rows of integers, and batches of rows. *)
Definition read_rows (h : list obj) (v : value) : option (list (list Z)) :=
  read_list (read_ints h) h v.

Definition read_batches (h : list obj) (v : value) : option (list (list (list Z))) :=
  read_list (read_rows h) h v.

(** [v] refers to the label table [id2label]. *)
Definition is_table (h : list obj) (v : value) (id2label : gmap Z (list N)) : Prop :=
  exists r, v = VRef r /\ h !! r = Some (OTable (VStr <$> id2label)).

(** The list of example dictionaries that [v] refers to. *)
Definition read_examples (h : list obj) (v : value) : option (list Example.t) :=
  read_list (read_example h) h v.

(** *** Two runs compared *)

(** The outcomes of two runs are the same when both raise the same
    exception, or both return an object and the two objects, each read in
    the store its run left, have the same content.  The two references
    need not be equal: each run allocates its result. *)
Definition same_outcome {A : Type} (read : list obj -> value -> option A)
    (h1 : list obj) (o1 : outcome value) (h2 : list obj) (o2 : outcome value) : Prop :=
  match o1, o2 with
  | Val v1, Val v2 => is_Some (read h1 v1) /\ read h1 v1 = read h2 v2
  | Exc e1, Exc e2 => e1 = e2
  | _, _ => False
  end.

(** A tokenizer with a state: it answers as [canned_tokenizer] and counts
    its calls. *)
Definition counting_tokenizer (ids : list Z)
    : nat -> list (list N) -> Z -> result TokenizedInput.t * nat :=
  fun calls tokens max_seq_len => (canned_tokenizer ids tokens max_seq_len, S calls).

(** A store with the example [beijing] (at 2, its tokens at 0 and its labels
    at 1), the list of examples (3), the label table (4), one batch with
    the row [beijing_row] (5 to 7) and one batch of valid lengths (8, 9). *)
Definition beijing_store : list obj :=
  [ OList (map VStr (Example.tokens beijing));
    OList (map VInt (Example.labels beijing));
    ODict (<["tokens" := VRef 0]> (<["labels" := VRef 1]> ∅));
    OList [VRef 2];
    OTable (VStr <$> msra_id2label);
    OList (map VInt beijing_row);
    OList [VRef 5];
    OList [VRef 6];
    OList [VInt 6];
    OList [VRef 8] ].

Definition beijing_state : state nat := mk_state beijing_store 0%nat.

Definition beijing_tokenizer : nat -> list (list N) -> Z -> result TokenizedInput.t * nat :=
  counting_tokenizer [101; 1; 2; 3; 4; 5; 102].

(** Two runs of the aligner on the example at 2, the second from the state
    that the first one left; and two runs of the decoder likewise. *)
Definition first_align : outcome value * state nat :=
  h_tokenize_and_align_labels beijing_tokenizer (VRef 2) 6 128 beijing_state.

Definition second_align : outcome value * state nat :=
  h_tokenize_and_align_labels beijing_tokenizer (VRef 2) 6 128 first_align.2.

Definition first_parse : outcome value * state nat :=
  h_parse_decodes (fun p => p.1 ++ p.2) (VRef 3) (VRef 4) (VRef 7) (VRef 9) beijing_state.

Definition second_parse : outcome value * state nat :=
  h_parse_decodes (fun p => p.1 ++ p.2) (VRef 3) (VRef 4) (VRef 7) (VRef 9) first_parse.2.

(** * Properties *)

(** ** Python primitives *)

Lemma len_nonneg {A : Type} (l : list A) : 0 <= len l.
Proof. unfold len. lia. Qed.

Lemma len_app {A : Type} (l k : list A) : len (l ++ k) = len l + len k.
Proof. unfold len. rewrite length_app. lia. Qed.

Lemma py_mul_singleton {A : Type} (x : A) (k : Z) :
  py_mul [x] k = replicate (Z.to_nat k) x.
Proof.
  unfold py_mul. induction (Z.to_nat k) as [|n IH]; simpl; [done|].
  by rewrite IH.
Qed.

Lemma py_mul_nonpos {A : Type} (l : list A) (k : Z) : k <= 0 -> py_mul l k = [].
Proof. intros Hk. unfold py_mul. by replace (Z.to_nat k) with 0%nat by lia. Qed.

(** [l[:k]] for [0 <= k] keeps the first [k] elements. *)
Lemma py_slice_prefix {A : Type} (k : Z) (l : list A) :
  0 <= k -> py_slice 0 k l = take (Z.to_nat k) l.
Proof.
  intros Hk. unfold py_slice, py_clip.
  pose proof (len_nonneg l) as Hl. unfold len in *.
  replace (0 <? 0) with false by done.
  destruct (Z.ltb_spec k 0) as [?|_]; [lia|].
  rewrite (Z.min_l 0) by lia. simpl. rewrite drop_0, Z.sub_0_r.
  destruct (Z.min_spec k (Z.of_nat (length l))) as [[_ ->]|[Hge ->]]; [done|].
  rewrite Nat2Z.id. rewrite !take_ge; [done|lia|lia].
Qed.

(** [l[:k]] for [k < 0] drops the last [-k] elements. *)
Lemma py_slice_drop_last {A : Type} (k : Z) (l : list A) :
  k < 0 -> py_slice 0 k l = take (length l - Z.to_nat (- k)) l.
Proof.
  intros Hk. unfold py_slice, py_clip. unfold len.
  replace (0 <? 0) with false by done.
  destruct (Z.ltb_spec k 0) as [_|?]; [|lia].
  rewrite (Z.min_l 0) by lia. simpl. rewrite drop_0, Z.sub_0_r.
  f_equal. lia.
Qed.

(** [l[1:e]] for [0 <= e]: the elements at positions [1 .. e-1]. *)
Lemma py_slice_from_1 {A : Type} (e : Z) (l : list A) :
  0 <= e -> py_slice 1 e l = take (Z.to_nat (e - 1)) (drop 1 l).
Proof.
  intros He. unfold py_slice, py_clip. unfold len.
  replace (1 <? 0) with false by done.
  destruct (Z.ltb_spec e 0) as [?|_]; [lia|].
  destruct l as [|x l]; [by rewrite !drop_nil, !take_nil|].
  rewrite (Z.min_l 1) by (simpl length; lia).
  change (Z.to_nat 1) with 1%nat. simpl drop. rewrite drop_0.
  destruct (Z.min_spec e (Z.of_nat (length (x :: l)))) as [[_ ->]|[Hge ->]]; [done|].
  simpl length in *. by rewrite !take_ge by lia.
Qed.

Lemma py_slice_from_1_length {A : Type} (e : Z) (l : list A) :
  1 <= e <= len l -> len (py_slice 1 e l) = e - 1.
Proof.
  intros [H1 H2]. rewrite py_slice_from_1 by lia. unfold len in *.
  rewrite length_take, length_drop. lia.
Qed.

(** ** The label aligner *)

Section AlignerFacts.

Variable tokenizer : list pystr -> Z -> result TokenizedInput.t.
Variables (example : Example.t) (no_entity_id max_seq_len : Z).
Variable ti : TokenizedInput.t.
Hypothesis tokenized : tokenizer (Example.tokens example) max_seq_len = Ok ti.

Let n := len (TokenizedInput.input_ids ti).
Let labels := Example.labels example.

Lemma align_unfold :
  tokenize_and_align_labels tokenizer example no_entity_id max_seq_len =
  Ok (TokenizedInput.set_labels ti
        ([no_entity_id] ++ kept_labels n labels ++ [no_entity_id] ++
         replicate (Z.to_nat (n - (len (kept_labels n labels) + 2))) no_entity_id)).
Proof using tokenized.
  unfold tokenize_and_align_labels. rewrite tokenized. simpl.
  do 2 f_equal. fold n labels.
  rewrite py_mul_singleton. rewrite <- app_assoc. simpl. do 2 f_equal.
  f_equal. f_equal. unfold len. simpl. rewrite length_app. simpl. lia.
Qed.

End AlignerFacts.

Lemma kept_labels_fit (n : Z) (labels : list Z) :
  len labels <= n - 2 -> kept_labels n labels = labels.
Proof.
  intros Hm. unfold kept_labels.
  destruct (Z.ltb_spec (n - 2) (len labels)); [lia|done].
Qed.

Lemma kept_labels_truncated (n : Z) (labels : list Z) :
  2 <= n -> n - 2 < len labels -> kept_labels n labels = take (Z.to_nat (n - 2)) labels.
Proof.
  intros Hn Hm. unfold kept_labels.
  destruct (Z.ltb_spec (n - 2) (len labels)); [|lia].
  apply py_slice_prefix. lia.
Qed.

Lemma kept_labels_degenerate (n : Z) (labels : list Z) :
  n < 2 -> kept_labels n labels = take (length labels - Z.to_nat (2 - n)) labels.
Proof.
  intros Hn. unfold kept_labels. pose proof (len_nonneg labels).
  destruct (Z.ltb_spec (n - 2) (len labels)); [|lia].
  rewrite py_slice_drop_last by lia. do 2 f_equal. lia.
Qed.

(** The aligner fails exactly when the tokenizer does, with its error. *)
Lemma align_tokenizer_error tokenizer example no_entity_id max_seq_len e :
  tokenizer (Example.tokens example) max_seq_len = Raise e ->
  tokenize_and_align_labels tokenizer example no_entity_id max_seq_len = Raise e.
Proof. intros H. unfold tokenize_and_align_labels. by rewrite H. Qed.

(** C2: when the tokenizer answers [n >= 2] sub-tokens and the example has
    at most [n - 2] labels, the aligned label list has exactly [n] entries:
    [no_entity_id] at position 0, the input labels in order at positions
    [1 .. len(labels)], and [no_entity_id] at every later position up to
    the last one. *)
Theorem align_pads_short_labels
    (tokenizer : list pystr -> Z -> result TokenizedInput.t)
    (example : Example.t) (no_entity_id max_seq_len : Z) (ti : TokenizedInput.t) :
  tokenizer (Example.tokens example) max_seq_len = Ok ti ->
  2 <= len (TokenizedInput.input_ids ti) ->
  len (Example.labels example) <= len (TokenizedInput.input_ids ti) - 2 ->
  exists out : list Z,
    tokenize_and_align_labels tokenizer example no_entity_id max_seq_len
      = Ok (TokenizedInput.set_labels ti out) /\
    len out = len (TokenizedInput.input_ids ti) /\
    out !! 0%nat = Some no_entity_id /\
    (forall i : nat, (i < length (Example.labels example))%nat ->
       out !! S i = Example.labels example !! i) /\
    (forall i : nat,
       (length (Example.labels example) < i < length (TokenizedInput.input_ids ti))%nat ->
       out !! i = Some no_entity_id) /\
    last out = Some no_entity_id.
Proof.
  intros Htok Hn Hm. eexists. split; [by apply align_unfold|].
  rewrite kept_labels_fit by done.
  set (ls := Example.labels example) in *.
  set (n := len (TokenizedInput.input_ids ti)) in *.
  set (pad := replicate (Z.to_nat (n - (len ls + 2))) no_entity_id).
  assert (Hpad : length pad = Z.to_nat (n - (len ls + 2))) by apply length_replicate.
  split; [|split; [done|split; [|split]]].
  - unfold len in *. repeat (rewrite length_app || simpl length). lia.
  - intros i Hi. simpl. by rewrite lookup_app_l.
  - intros i [Hlo Hhi]. destruct i as [|j]; [lia|]. simpl.
    rewrite lookup_app_r by lia.
    change (no_entity_id :: pad) with (replicate (S (Z.to_nat (n - (len ls + 2)))) no_entity_id).
    apply lookup_replicate_2. unfold n, len in *. lia.
  - rewrite !app_assoc.
    change ([no_entity_id] ++ pad) with (replicate (S (Z.to_nat (n - (len ls + 2)))) no_entity_id).
    rewrite <- app_assoc. rewrite last_app.
    rewrite last_app.
    change (last (replicate (S (Z.to_nat (n - (len ls + 2)))) no_entity_id))
      with (last (no_entity_id :: pad)).
    rewrite last_cons. unfold pad.
    destruct (last (replicate _ no_entity_id)) as [x|] eqn:Hlast; [|done].
    apply last_Some_elem_of in Hlast. apply elem_of_replicate in Hlast as [-> _]. done.
Qed.

Lemma align_pads_short_labels_witness :
  exists out : list Z,
    tokenize_and_align_labels (canned_tokenizer [101; 11; 12; 13; 14; 102])
      (Example.mk [[21271%N]; [20140%N]] [4; 5]) 6 512
      = Ok (TokenizedInput.set_labels
              {| TokenizedInput.input_ids := [101; 11; 12; 13; 14; 102];
                 TokenizedInput.token_type_ids := [0; 0; 0; 0; 0; 0];
                 TokenizedInput.seq_len := 6;
                 TokenizedInput.labels := None |} out) /\
    len out = 6 /\ out !! 0%nat = Some 6 /\
    out !! 1%nat = Some 4 /\ out !! 2%nat = Some 5 /\ out !! 4%nat = Some 6.
Proof.
  destruct (align_pads_short_labels (canned_tokenizer [101; 11; 12; 13; 14; 102])
              (Example.mk [[21271%N]; [20140%N]] [4; 5]) 6 512
              {| TokenizedInput.input_ids := [101; 11; 12; 13; 14; 102];
                 TokenizedInput.token_type_ids := [0; 0; 0; 0; 0; 0];
                 TokenizedInput.seq_len := 6;
                 TokenizedInput.labels := None |})
    as (out & Hrun & Hlen & Hfirst & Hlabels & Hpad & _).
  - reflexivity.
  - vm_compute. discriminate.
  - vm_compute. discriminate.
  - exists out. split; [exact Hrun|]. split; [exact Hlen|]. split; [exact Hfirst|].
    split; [apply (Hlabels 0%nat); simpl; lia|].
    split; [apply (Hlabels 1%nat); simpl; lia|].
    apply (Hpad 4%nat). simpl. lia.
Defined.

(** C4: when the example has more than [n - 2] labels for the [n]
    sub-tokens the tokenizer answers, exactly the first [n - 2] labels are
    kept, between two [no_entity_id], and the aligned label list has
    exactly [n] entries.  [n >= 2] is the input constraint of the aligner:
    the two boundary positions that line 29 subtracts are always among the
    sub-tokens. *)
Theorem align_truncates_long_labels
    (tokenizer : list pystr -> Z -> result TokenizedInput.t)
    (example : Example.t) (no_entity_id max_seq_len : Z) (ti : TokenizedInput.t) :
  tokenizer (Example.tokens example) max_seq_len = Ok ti ->
  2 <= len (TokenizedInput.input_ids ti) ->
  len (TokenizedInput.input_ids ti) - 2 < len (Example.labels example) ->
  exists out : list Z,
    tokenize_and_align_labels tokenizer example no_entity_id max_seq_len
      = Ok (TokenizedInput.set_labels ti out) /\
    out = [no_entity_id]
          ++ take (Z.to_nat (len (TokenizedInput.input_ids ti) - 2)) (Example.labels example)
          ++ [no_entity_id] /\
    len (take (Z.to_nat (len (TokenizedInput.input_ids ti) - 2)) (Example.labels example))
      = len (TokenizedInput.input_ids ti) - 2 /\
    len out = len (TokenizedInput.input_ids ti).
Proof.
  intros Htok Hn Hm. eexists. split; [by apply align_unfold|].
  rewrite kept_labels_truncated by done.
  set (ls := Example.labels example) in *.
  set (n := len (TokenizedInput.input_ids ti)) in *.
  assert (Hkept : len (take (Z.to_nat (n - 2)) ls) = n - 2).
  { unfold len in *. rewrite length_take. lia. }
  rewrite Hkept. replace (n - (n - 2 + 2)) with 0 by lia. simpl replicate.
  split; [done|]. split; [done|].
  rewrite !len_app, Hkept. unfold len. simpl. lia.
Qed.

(** The scenario of ten labels and eight sub-tokens: the first six labels
    are kept and the result has eight entries. *)
Lemma align_truncates_long_labels_witness :
  exists out : list Z,
    tokenize_and_align_labels (canned_tokenizer [101; 11; 12; 13; 14; 15; 16; 102])
      (Example.mk [] [1; 2; 3; 4; 5; 6; 7; 8; 9; 10]) 0 512
      = Ok (TokenizedInput.set_labels
              {| TokenizedInput.input_ids := [101; 11; 12; 13; 14; 15; 16; 102];
                 TokenizedInput.token_type_ids := [0; 0; 0; 0; 0; 0; 0; 0];
                 TokenizedInput.seq_len := 8;
                 TokenizedInput.labels := None |} out) /\
    out = [0; 1; 2; 3; 4; 5; 6; 0] /\ len out = 8.
Proof.
  destruct (align_truncates_long_labels
              (canned_tokenizer [101; 11; 12; 13; 14; 15; 16; 102])
              (Example.mk [] [1; 2; 3; 4; 5; 6; 7; 8; 9; 10]) 0 512
              {| TokenizedInput.input_ids := [101; 11; 12; 13; 14; 15; 16; 102];
                 TokenizedInput.token_type_ids := [0; 0; 0; 0; 0; 0; 0; 0];
                 TokenizedInput.seq_len := 8;
                 TokenizedInput.labels := None |})
    as (out & Hrun & Hout & _ & Hlen).
  - reflexivity.
  - vm_compute. discriminate.
  - reflexivity.
  - exists out. split; [exact Hrun|]. split; [exact Hout|exact Hlen].
Defined.

(** C8: whatever the tokenizer answers, also fewer than two sub-tokens, the
    aligner returns a result and raises nothing.  The result never has
    fewer entries than the tokenizer's output; below two sub-tokens it is
    [no_entity_id], the labels without their last [2 - n], [no_entity_id]:
    at least two entries, more than the [n] sub-tokens. *)
Theorem align_returns_on_every_input
    (tokenizer : list pystr -> Z -> result TokenizedInput.t)
    (example : Example.t) (no_entity_id max_seq_len : Z) (ti : TokenizedInput.t) :
  tokenizer (Example.tokens example) max_seq_len = Ok ti ->
  exists out : list Z,
    tokenize_and_align_labels tokenizer example no_entity_id max_seq_len
      = Ok (TokenizedInput.set_labels ti out) /\
    len (TokenizedInput.input_ids ti) <= len out /\
    (len (TokenizedInput.input_ids ti) < 2 ->
       out = [no_entity_id]
             ++ take (length (Example.labels example)
                      - Z.to_nat (2 - len (TokenizedInput.input_ids ti)))
                  (Example.labels example)
             ++ [no_entity_id] /\
       len (TokenizedInput.input_ids ti) < len out).
Proof.
  intros Htok. eexists. split; [by apply align_unfold|].
  set (ls := Example.labels example) in *.
  set (n := len (TokenizedInput.input_ids ti)) in *.
  split.
  - unfold len.
    repeat (rewrite length_app || rewrite length_replicate || simpl length).
    lia.
  - intros Hn. rewrite kept_labels_degenerate by done.
    set (kept := take _ ls). pose proof (len_nonneg kept).
    replace (Z.to_nat (n - (len kept + 2))) with 0%nat by lia. simpl replicate.
    split; [done|]. unfold len in *.
    repeat (rewrite length_app || simpl length). lia.
Qed.

Lemma align_returns_on_every_input_witness :
  exists out : list Z,
    tokenize_and_align_labels (canned_tokenizer [101]) (Example.mk [] [7; 8; 9]) 0 512
      = Ok (TokenizedInput.set_labels
              {| TokenizedInput.input_ids := [101];
                 TokenizedInput.token_type_ids := [0];
                 TokenizedInput.seq_len := 1;
                 TokenizedInput.labels := None |} out) /\
    len [101] <= len out /\
    out = [0; 7; 8; 0] /\
    len [101] < len out.
Proof.
  destruct (align_returns_on_every_input (canned_tokenizer [101])
              (Example.mk [] [7; 8; 9]) 0 512
              {| TokenizedInput.input_ids := [101];
                 TokenizedInput.token_type_ids := [0];
                 TokenizedInput.seq_len := 1;
                 TokenizedInput.labels := None |})
    as (out & Hrun & Hlen & Hsmall).
  - reflexivity.
  - destruct Hsmall as [Hout Hover]; [reflexivity|].
    exists out. split; [exact Hrun|]. split; [exact Hlen|].
    split; [exact Hout|exact Hover].
Defined.

(** ** Strings *)

Lemma str_eqb_eq (s t : pystr) : str_eqb s t = true <-> s = t.
Proof.
  revert t. induction s as [|a s IH]; intros [|b t]; simpl; try done.
  rewrite andb_true_iff, N.eqb_eq, IH. split; [by intros [-> ->]|].
  intros [= -> ->]. done.
Qed.

Lemma py_startswith_app (p s : pystr) : py_startswith (p ++ s) p = true.
Proof. induction p as [|a p IH]; simpl; [done|]. rewrite N.eqb_refl. exact IH. Qed.

Lemma py_startswith_inv (s p : pystr) :
  py_startswith s p = true -> s = p ++ drop (length p) s.
Proof.
  revert s. induction p as [|a p IH]; intros s; simpl; [done|].
  destruct s as [|b s]; [done|]. rewrite andb_true_iff, N.eqb_eq.
  intros [-> H]. simpl. f_equal. by apply IH.
Qed.

(** The first piece of a split is what precedes the first separator. *)
Lemma py_split_head (sep : pychar) (s : pystr) :
  exists ps, py_split sep s = before_sep sep s :: ps.
Proof.
  induction s as [|c s [ps IH]]; simpl; [by eexists|].
  destruct (N.eqb c sep); [by eexists|]. rewrite IH. by eexists.
Qed.

Lemma before_sep_absent (sep : pychar) (s : pystr) :
  sep ∉ s -> before_sep sep s = s.
Proof.
  induction s as [|c s IH]; simpl; [done|]. intros Hnot.
  apply not_elem_of_cons in Hnot as [Hne Hnot].
  destruct (N.eqb_spec c sep) as [->|_]; [done|]. by rewrite IH.
Qed.

(** On a tag that starts with [B-], [t.split('-')[1]] is defined: it is
    what lies between the prefix and the next hyphen. *)
Lemma split_B_tag (t : pystr) :
  py_startswith t B_prefix = true ->
  py_getitem (py_split hyphen t) 1 = Ok (before_sep hyphen (drop 2 t)).
Proof.
  intros H. apply py_startswith_inv in H.
  change (length B_prefix) with 2%nat in H.
  remember (drop 2 t) as r eqn:Hr. rewrite H. clear H Hr.
  destruct (py_split_head hyphen r) as [ps Hps].
  change (B_prefix ++ r) with (66%N :: 45%N :: r). simpl py_split.
  change (N.eqb 45 hyphen) with true. change (N.eqb 66 hyphen) with false.
  cbv iota. rewrite Hps. reflexivity.
Qed.

(** ** One iteration of the decoding loop *)

(** The iteration never raises. *)
Lemma walk_step_ok (st : walk_state) (s : pychar) (t : pystr) :
  walk_step st s t =
  Ok (if opens_span t then open_span st s (recorded_type t) else extend_span st s).
Proof.
  unfold walk_step, recorded_type. destruct (opens_span t); [|done].
  destruct (py_startswith t B_prefix) eqn:HB; [|done].
  by rewrite split_B_tag.
Qed.

Lemma consumed_step (st : walk_state) (s : pychar) (t : pystr) :
  consumed (if opens_span t then open_span st s (recorded_type t) else extend_span st s)
  = consumed st ++ [s].
Proof.
  unfold consumed. destruct (opens_span t); simpl.
  - destruct (Z.ltb_spec 0 (len (words st))) as [Hpos|Hzero].
    + rewrite join_app. simpl. by rewrite app_nil_r.
    + destruct (words st) as [|c w]; [by rewrite app_nil_r|].
      unfold len in Hzero. simpl in Hzero. lia.
  - by rewrite app_assoc.
Qed.

Lemma pending_step (d : nat) (st : walk_state) (s : pychar) (t : pystr) :
  pending d st ->
  pending d (if opens_span t then open_span st s (recorded_type t) else extend_span st s).
Proof.
  intros [Hw Hlen]. destruct (opens_span t); split; simpl.
  - done.
  - destruct (Z.ltb_spec 0 (len (words st))) as [_|Hzero].
    + rewrite !length_app. simpl. lia.
    + destruct (words st); [done|]. unfold len in Hzero. simpl in Hzero. lia.
  - by destruct (words st).
  - done.
Qed.

Lemma pending_first (s : pychar) (t : pystr) :
  pending (if opens_span t then 1 else 0)
    (if opens_span t then open_span walk_init s (recorded_type t)
     else extend_span walk_init s).
Proof. destruct (opens_span t); split; simpl; done. Qed.

(** ** The loop over one sentence *)

(** The loop never raises. *)
Lemma walk_total (st : walk_state) (sent : pystr) (tags : list pystr) :
  exists st', walk st sent tags = Ok st'.
Proof.
  revert st tags. induction sent as [|s sent IH]; intros st [|t tags]; simpl; eauto.
  rewrite walk_step_ok. simpl. apply IH.
Qed.

(** It consumes one character per tag, as long as both last. *)
Lemma walk_consumed (st st' : walk_state) (sent : pystr) (tags : list pystr) :
  walk st sent tags = Ok st' ->
  consumed st' = consumed st ++ take (length tags) sent.
Proof.
  revert st tags. induction sent as [|s sent IH]; intros st [|t tags]; simpl;
    try (intros [= <-]; by rewrite app_nil_r).
  rewrite walk_step_ok. simpl. intros H. apply IH in H.
  by rewrite H, consumed_step, <- app_assoc.
Qed.

Lemma walk_pending (d : nat) (st st' : walk_state) (sent : pystr) (tags : list pystr) :
  pending d st -> walk st sent tags = Ok st' -> pending d st'.
Proof.
  revert st tags. induction sent as [|s sent IH]; intros st [|t tags] Hp; simpl;
    try (by intros [= <-]).
  rewrite walk_step_ok. simpl. apply IH. by apply pending_step.
Qed.

(** Characters beyond the number of tags, and tags beyond the number of
    characters, play no part. *)
Lemma walk_take_sent (st : walk_state) (sent : pystr) (tags : list pystr) (k : nat) :
  (length tags <= k)%nat \/ (length sent <= k)%nat ->
  walk st (take k sent) tags = walk st sent tags.
Proof.
  revert st tags k. induction sent as [|s sent IH]; intros st tags k Hk.
  - by rewrite take_nil.
  - destruct tags as [|t tags]; [by destruct k|].
    destruct k as [|k]; [simpl in Hk; lia|]. simpl.
    destruct (walk_step st s t); simpl; [|done]. apply IH. simpl in Hk. lia.
Qed.

Lemma walk_take_tags (st : walk_state) (sent : pystr) (tags : list pystr) (k : nat) :
  (length sent <= k)%nat \/ (length tags <= k)%nat ->
  walk st sent (take k tags) = walk st sent tags.
Proof.
  revert st tags k. induction sent as [|s sent IH]; intros st tags k Hk.
  - by destruct (take k tags), tags.
  - destruct tags as [|t tags]; [by rewrite take_nil|].
    destruct k as [|k]; [simpl in Hk; lia|]. simpl.
    destruct (walk_step st s t); simpl; [|done]. apply IH. simpl in Hk. lia.
Qed.

(** A walk from the initial state that makes at least one iteration ends
    with the invariant of its first tag. *)
Lemma walk_init_pending (s : pychar) (sent : pystr) (t : pystr) (tags : list pystr)
    (st' : walk_state) :
  walk walk_init (s :: sent) (t :: tags) = Ok st' ->
  pending (if opens_span t then 1 else 0) st'.
Proof.
  simpl. rewrite walk_step_ok. simpl. apply walk_pending, pending_first.
Qed.

Lemma fixup_pending_1 (st : walk_state) :
  pending 1 st ->
  fixup st = {| sent_out := sent_out st ++ [words st];
                tags_out := tags_out st; words := words st |}.
Proof.
  intros [_ Hlen]. unfold fixup, len.
  destruct (Z.ltb_spec (Z.of_nat (length (sent_out st))) (Z.of_nat (length (tags_out st))));
    [done|lia].
Qed.

Lemma fixup_pending_0 (st : walk_state) : pending 0 st -> fixup st = st.
Proof.
  intros [_ Hlen]. unfold fixup, len.
  destruct (Z.ltb_spec (Z.of_nat (length (sent_out st))) (Z.of_nat (length (tags_out st))));
    [lia|done].
Qed.

Lemma py_zip_fst {A B : Type} (a : list A) (b : list B) :
  length a = length b -> map fst (py_zip a b) = a.
Proof.
  revert b. induction a as [|x a IH]; intros [|y b]; simpl; try done.
  intros [= H]. by rewrite IH.
Qed.

Lemma py_zip_snd {A B : Type} (a : list A) (b : list B) :
  length a = length b -> map snd (py_zip a b) = b.
Proof.
  revert b. induction a as [|x a IH]; intros [|y b]; simpl; try done.
  intros [= H]. by rewrite IH.
Qed.

Lemma consumed_init : consumed walk_init = [].
Proof. reflexivity. Qed.

(** What the loop and the fix-up compute for one sentence: the loop ends in
    a state [st] that has consumed one character per tag; after the fix-up
    the two lists have the same length; the spans spell all the consumed
    characters when the first tag opens a span, and leave the accumulator
    out when it does not. *)
Lemma decode_tags_spec (sent : pystr) (tags : list pystr) :
  exists st : walk_state,
    walk walk_init sent tags = Ok st /\
    decode_tags sent tags = Ok (sent_out (fixup st), tags_out (fixup st)) /\
    consumed st = take (length tags) sent /\
    length (sent_out (fixup st)) = length (tags_out (fixup st)) /\
    (head_opens tags = true ->
       mjoin (sent_out (fixup st)) = take (length tags) sent) /\
    (head_opens tags = false -> sent <> [] ->
       fixup st = st /\ words st <> []).
Proof.
  destruct (walk_total walk_init sent tags) as [st Hwalk].
  exists st. split; [done|].
  split; [unfold decode_tags; by rewrite Hwalk|].
  pose proof (walk_consumed _ _ _ _ Hwalk) as Hcons.
  rewrite consumed_init, app_nil_l in Hcons.
  split; [done|].
  destruct sent as [|s sent].
  { simpl in Hwalk. injection Hwalk as <-. rewrite take_nil.
    split; [done|]. split; [done|]. by intros _ ?. }
  destruct tags as [|t tags].
  { simpl in Hwalk. injection Hwalk as <-. split; [done|]. split; done. }
  pose proof (walk_init_pending _ _ _ _ _ Hwalk) as Hp. simpl head_opens.
  destruct (opens_span t).
  - rewrite (fixup_pending_1 _ Hp). simpl. destruct Hp as [_ Hlen].
    split; [rewrite length_app; simpl; lia|].
    split; [|done]. intros _. transitivity (consumed st); [|exact Hcons].
    unfold consumed. rewrite join_app. simpl. by rewrite app_nil_r.
  - rewrite (fixup_pending_0 _ Hp). destruct Hp as [Hw Hlen].
    split; [lia|]. split; [done|]. intros _ _. split; [done|].
    exact Hw.
Qed.

(** The decoding of one sentence never raises. *)
Lemma decode_tags_total (sent : pystr) (tags : list pystr) :
  exists out, decode_tags sent tags = Ok out.
Proof. destruct (decode_tags_spec sent tags) as (st & _ & H & _). eauto. Qed.

(** The spans returned for a sentence spell a prefix of the characters that
    have a tag. *)
Lemma decode_tags_prefix (sent : pystr) (tags : list pystr) (out : list pystr * list pystr) :
  decode_tags sent tags = Ok out ->
  mjoin out.1 `prefix_of` take (length tags) sent.
Proof.
  destruct (decode_tags_spec sent tags) as (st & _ & Hdec & Hcons & _ & Hopen & Hcont).
  rewrite Hdec. intros [= <-]. simpl.
  destruct (head_opens tags) eqn:Hhead.
  - by rewrite Hopen.
  - destruct sent as [|s sent].
    + unfold decode_tags in Hdec. simpl in Hdec. injection Hdec as <- _.
      apply prefix_nil.
    + destruct Hcont as [-> _]; [done..|]. rewrite <- Hcons. by eexists.
Qed.

(** Unfolding of the body of the loop over the examples. *)
Lemma decode_example_unfold (input_words : list Example.t) (id2label : gmap Z (list N))
    (decodes : list (list Z)) (idx : nat) (end_ : Z)
    (example : Example.t) (row : list Z) (tags : list pystr) :
  input_words !! idx = Some example ->
  decodes !! idx = Some row ->
  lookup_tags id2label (py_slice 1 end_ row) = Ok tags ->
  decode_example input_words id2label decodes idx end_ =
  (try out <- decode_tags (py_join (Example.tokens example)) tags;
   Ok (py_zip out.1 out.2)).
Proof.
  intros Hex Hrow Htags. unfold decode_example, py_getitem.
  rewrite Hex, Hrow. simpl. by rewrite Htags.
Qed.

Lemma lookup_tags_length (id2label : gmap Z (list N)) (ids : list Z) (tags : list pystr) :
  lookup_tags id2label ids = Ok tags -> length tags = length ids.
Proof.
  revert tags. induction ids as [|x ids IH]; intros tags; simpl; [by intros [= <-]|].
  destruct (dict_getitem id2label x); simpl; [|done].
  destruct (lookup_tags id2label ids) as [ts|]; simpl; [|done].
  intros [= <-]. simpl. by rewrite (IH ts).
Qed.

(** ** Well-formed tag sequences *)

Lemma well_formed_head_opens (tags : list pystr) :
  well_formed_bio tags = true -> head_opens tags = true.
Proof.
  destruct tags as [|t tags]; [done|]. unfold well_formed_bio.
  cbn [bio_from head_opens]. unfold opens_span. destruct (str_eqb t O_tag); [by rewrite orb_true_r|].
  destruct (py_startswith t B_prefix); [done|].
  by destruct (py_startswith t I_prefix).
Qed.

(** ** The span decoder on one example *)

(** C1 (as amended): for an example whose tag sequence is a well-formed BIO
    sequence with at least as many tags as the source text has characters,
    the spans returned for the example, concatenated in order, are the
    source text. *)
Theorem spans_spell_source_text
    (input_words : list Example.t) (id2label : gmap Z (list N))
    (decodes : list (list Z)) (idx : nat) (end_ : Z)
    (example : Example.t) (row : list Z) (tags : list pystr) :
  input_words !! idx = Some example ->
  decodes !! idx = Some row ->
  lookup_tags id2label (py_slice 1 end_ row) = Ok tags ->
  well_formed_bio tags = true ->
  (length (py_join (Example.tokens example)) <= length tags)%nat ->
  exists pairs : list (pystr * pystr),
    decode_example input_words id2label decodes idx end_ = Ok pairs /\
    mjoin (map fst pairs) = py_join (Example.tokens example).
Proof.
  intros Hex Hrow Htags Hwf Hlen.
  rewrite (decode_example_unfold _ _ _ _ _ _ _ _ Hex Hrow Htags).
  destruct (decode_tags_spec (py_join (Example.tokens example)) tags)
    as (st & _ & Hdec & _ & Hlens & Hopen & _).
  rewrite Hdec. simpl. eexists. split; [done|].
  rewrite py_zip_fst by done.
  rewrite Hopen by by apply well_formed_head_opens.
  by apply take_ge.
Qed.

Lemma spans_spell_source_text_witness :
  exists pairs : list (pystr * pystr),
    decode_example [beijing] msra_id2label [beijing_row] 0 6 = Ok pairs /\
    mjoin (map fst pairs) = bei ++ jing ++ huan ++ ying ++ ni.
Proof.
  apply (spans_spell_source_text [beijing] msra_id2label [beijing_row] 0 6
           beijing beijing_row
           [lit "B-LOC"; lit "I-LOC"; lit "O"; lit "O"; lit "O"]).
  - reflexivity.
  - reflexivity.
  - vm_compute. reflexivity.
  - vm_compute. reflexivity.
  - vm_compute. lia.
Defined.

(** C1, as stated, fails when the tags run out before the text: with the
    valid length 4 the sentence of five characters gets the three tags
    B-LOC I-LOC O, a well-formed sequence, and the spans spell only its
    first three characters. *)
Lemma short_tags_lose_text :
  lookup_tags msra_id2label (py_slice 1 4 beijing_row)
    = Ok [lit "B-LOC"; lit "I-LOC"; lit "O"] /\
  well_formed_bio [lit "B-LOC"; lit "I-LOC"; lit "O"] = true /\
  decode_example [beijing] msra_id2label [beijing_row] 0 4
    = Ok [(bei ++ jing, lit "LOC"); (huan, lit "O")] /\
  mjoin (map fst [(bei ++ jing, lit "LOC"); (huan, lit "O")])
    <> py_join (Example.tokens beijing).
Proof.
  split; [vm_compute; reflexivity|]. split; [vm_compute; reflexivity|].
  split; [vm_compute; reflexivity|]. vm_compute. discriminate.
Qed.

(** C3: for every sentence and every tag sequence the decoding returns, and
    the span list and the type list it returns after the fix-up have the
    same length, so that pairing them loses no span and no type. *)
Theorem spans_and_types_same_length (sent : pystr) (tags : list pystr) :
  exists (spans types : list pystr),
    decode_tags sent tags = Ok (spans, types) /\
    length spans = length types /\
    map fst (py_zip spans types) = spans /\
    map snd (py_zip spans types) = types.
Proof.
  destruct (decode_tags_spec sent tags) as (st & _ & Hdec & _ & Hlens & _).
  exists (sent_out (fixup st)), (tags_out (fixup st)).
  split; [done|]. split; [done|].
  split; [by apply py_zip_fst|by apply py_zip_snd].
Qed.

(** C5 (as amended): for the five tokens of [beijing] and the tags
    B-LOC I-LOC O O O at positions 1 to 5 of the decoded row, after the
    leading boundary position, the valid length that makes the slice
    [row[1:end]] cover the five tags is 6, and the decoder then returns the
    LOC span of the first two characters followed by one [O] span per
    remaining character. *)
Theorem beijing_scenario :
  lookup_tags msra_id2label (py_slice 1 6 beijing_row)
    = Ok [lit "B-LOC"; lit "I-LOC"; lit "O"; lit "O"; lit "O"] /\
  decode_example [beijing] msra_id2label [beijing_row] 0 6 = Ok beijing_spans /\
  parse_decodes_pairs [beijing] msra_id2label [[beijing_row]] [[6]] = Ok [beijing_spans].
Proof. repeat split; vm_compute; reflexivity. Qed.

(** C5, as stated, fails: with the valid length 5 the slice [row[1:5]] has
    four tags, the fifth character is never reached, and three spans come
    back. *)
Lemma beijing_valid_length_5 :
  lookup_tags msra_id2label (py_slice 1 5 beijing_row)
    = Ok [lit "B-LOC"; lit "I-LOC"; lit "O"; lit "O"] /\
  decode_example [beijing] msra_id2label [beijing_row] 0 5
    = Ok [(bei ++ jing, lit "LOC"); (huan, lit "O"); (ying, lit "O")] /\
  decode_example [beijing] msra_id2label [beijing_row] 0 5 <> Ok beijing_spans.
Proof.
  split; [vm_compute; reflexivity|]. split; [vm_compute; reflexivity|].
  vm_compute. discriminate.
Qed.

(** With the valid length 5 no decoded row and no label table give the four
    spans: at most four characters have a tag. *)
Lemma beijing_valid_length_5_any_row (id2label : gmap Z (list N)) (decodes : list (list Z)) :
  decode_example [beijing] id2label decodes 0 5 <> Ok beijing_spans.
Proof.
  intros H. unfold decode_example, py_getitem in H.
  change ([beijing] !! 0%nat) with (Some beijing) in H. cbn [rbind] in H.
  destruct (decodes !! 0%nat) as [row|]; [|done]. cbn [rbind] in H.
  destruct (lookup_tags id2label (py_slice 1 5 row)) as [tags|] eqn:Htags; [|done].
  cbn [rbind] in H.
  destruct (decode_tags_spec (py_join (Example.tokens beijing)) tags)
    as (st & _ & Hdec & _ & Hlens & _).
  pose proof (decode_tags_prefix _ _ _ Hdec) as Hpre.
  rewrite Hdec in H. cbn [rbind fst snd] in H, Hpre. injection H as H.
  apply (f_equal (map fst)) in H. rewrite py_zip_fst in H by done.
  rewrite H in Hpre. apply prefix_length in Hpre.
  rewrite length_take in Hpre.
  apply lookup_tags_length in Htags.
  rewrite py_slice_from_1 in Htags by lia.
  rewrite length_take in Htags.
  change (length (mjoin (map fst beijing_spans))) with 5%nat in Hpre.
  change (Z.to_nat (5 - 1)) with 4%nat in Htags. lia.
Qed.

(** C6 (as amended): on a tag that starts with [B-] the type recorded is
    the part of the tag between the prefix and the next hyphen, which is
    the whole suffix when the suffix has no hyphen; on the tag [O] it is
    the string [O]. *)
Theorem recorded_type_of_tag (st : walk_state) (s : pychar) (suffix : pystr) :
  walk_step st s (B_prefix ++ suffix)
    = Ok (open_span st s (before_sep hyphen suffix)) /\
  tags_out (open_span st s (before_sep hyphen suffix))
    = tags_out st ++ [before_sep hyphen suffix] /\
  (hyphen ∉ suffix -> before_sep hyphen suffix = suffix) /\
  walk_step st s O_tag = Ok (open_span st s O_tag) /\
  tags_out (open_span st s O_tag) = tags_out st ++ [O_tag].
Proof.
  split; [|split; [done|split; [apply before_sep_absent|split; [|done]]]].
  - rewrite walk_step_ok. unfold opens_span, recorded_type.
    rewrite py_startswith_app. cbn [orb]. f_equal.
  - rewrite walk_step_ok. reflexivity.
Qed.

Lemma recorded_type_of_tag_witness :
  walk_step walk_init 0x5317%N (lit "B-LOC")
    = Ok {| sent_out := []; tags_out := [lit "LOC"]; words := bei |} /\
  walk_step walk_init 0x5317%N (lit "O")
    = Ok {| sent_out := []; tags_out := [lit "O"]; words := bei |}.
Proof.
  destruct (recorded_type_of_tag walk_init 0x5317%N (lit "LOC"))
    as (Hstep & _ & Hwhole & Hout & _).
  split; [|exact Hout].
  change (lit "B-LOC") with (B_prefix ++ lit "LOC"). rewrite Hstep.
  rewrite Hwhole; [reflexivity|].
  change (lit "LOC") with [76%N; 79%N; 67%N]. unfold hyphen.
  rewrite !not_elem_of_cons. repeat split; try discriminate.
  apply not_elem_of_nil.
Defined.

(** C6, as stated, fails on a type that has a hyphen: for the tag
    [B-PER-X] the type recorded is [PER], not [PER-X]. *)
Lemma hyphenated_type_is_cut :
  py_startswith (lit "B-PER-X") B_prefix = true /\
  walk_step walk_init 97%N (lit "B-PER-X")
    = Ok {| sent_out := []; tags_out := [lit "PER"]; words := [97%N] |} /\
  lit "PER" <> lit "PER-X".
Proof.
  split; [reflexivity|]. split; [vm_compute; reflexivity|]. vm_compute. discriminate.
Qed.

(** When the first tag continues a span, the accumulator is never
    returned: the spans miss at least the last character that has a tag. *)
Lemma leading_continuation_drops (sent : pystr) (tags : list pystr)
    (out : list pystr * list pystr) :
  head_opens tags = false -> sent <> [] ->
  decode_tags sent tags = Ok out ->
  (length (mjoin out.1) < length (take (length tags) sent))%nat.
Proof.
  intros Hhead Hsent Hout.
  destruct (decode_tags_spec sent tags) as (st & _ & Hdec & Hcons & _ & _ & Hcont).
  destruct (Hcont Hhead Hsent) as [Hfix Hw].
  rewrite Hdec, Hfix in Hout. injection Hout as <-. cbn [fst].
  rewrite <- Hcons. unfold consumed. rewrite length_app.
  destruct (words st); [done|]. simpl. lia.
Qed.

(** C7: there is an input whose tag sequence begins with an [I-] tag and on
    which a character is lost.  For the text of three characters U+5317
    U+4EAC U+6B22 and the tags I-LOC I-LOC O, the first iteration takes the
    continuation branch on the empty accumulator, and the only span
    returned holds the first two characters: the returned spans do not
    spell the source text. *)
Theorem leading_I_drops_character :
  exists (example : Example.t) (row : list Z) (end_ : Z)
         (s : pychar) (rest : pystr) (t : pystr) (tags : list pystr)
         (pairs : list (pystr * pystr)),
    py_join (Example.tokens example) = s :: rest /\
    lookup_tags msra_id2label (py_slice 1 end_ row) = Ok (t :: tags) /\
    py_startswith t I_prefix = true /\
    opens_span t = false /\
    words walk_init = [] /\
    walk_step walk_init s t = Ok (extend_span walk_init s) /\
    decode_example [example] msra_id2label [row] 0 end_ = Ok pairs /\
    mjoin (map fst pairs) <> py_join (Example.tokens example) /\
    (length (mjoin (map fst pairs)) < length (py_join (Example.tokens example)))%nat.
Proof.
  exists (Example.mk [bei; jing; huan] [5; 5; 6]), [6; 5; 5; 6; 6], 4.
  exists 0x5317%N, (jing ++ huan), (lit "I-LOC"), [lit "I-LOC"; lit "O"].
  exists [(bei ++ jing, lit "O")].
  split; [reflexivity|]. split; [vm_compute; reflexivity|].
  split; [reflexivity|]. split; [reflexivity|]. split; [reflexivity|].
  split; [reflexivity|]. split; [vm_compute; reflexivity|].
  split; [vm_compute; discriminate|]. vm_compute. lia.
Qed.

Lemma take_min_length {A : Type} (l : list A) (n : nat) :
  take (Nat.min (length l) n) l = take n l.
Proof.
  destruct (Nat.le_ge_cases n (length l)).
  - by rewrite Nat.min_r.
  - rewrite Nat.min_l by done. by rewrite !take_ge.
Qed.

(** C10: the loop walks characters and tags in lockstep up to the shorter
    of the two.  For an example with valid length [end_ >= 0], let [k] be
    [min(len(sent), end_ - 1)].  The spans returned spell a prefix of the
    first [k] characters of the text; the characters after the first [k]
    play no part in the result, and neither do the tags beyond the length
    of the text.  When the decoded row has at least [end_] entries, so
    that the slice has [end_ - 1] tags, the loop consumes exactly the first
    [k] characters, and the spans spell exactly these when the first tag
    opens a span. *)
Theorem walk_stops_at_shorter
    (input_words : list Example.t) (id2label : gmap Z (list N))
    (decodes : list (list Z)) (idx : nat) (end_ : Z)
    (example : Example.t) (row : list Z) (tags : list pystr) :
  input_words !! idx = Some example ->
  decodes !! idx = Some row ->
  lookup_tags id2label (py_slice 1 end_ row) = Ok tags ->
  0 <= end_ ->
  let sent := py_join (Example.tokens example) in
  let k := Z.to_nat (Z.min (len sent) (end_ - 1)) in
  (exists pairs : list (pystr * pystr),
     decode_example input_words id2label decodes idx end_ = Ok pairs /\
     mjoin (map fst pairs) `prefix_of` take k sent /\
     (end_ <= len row -> head_opens tags = true ->
        mjoin (map fst pairs) = take k sent)) /\
  decode_tags (take k sent) tags = decode_tags sent tags /\
  decode_tags sent (take (length sent) tags) = decode_tags sent tags /\
  (end_ <= len row ->
     exists st : walk_state,
       walk walk_init sent tags = Ok st /\ consumed st = take k sent).
Proof.
  intros Hex Hrow Htags Hend sent k.
  pose proof (lookup_tags_length _ _ _ Htags) as Hlen.
  rewrite py_slice_from_1 in Hlen by done.
  rewrite length_take, length_drop in Hlen.
  assert (Hk : take k sent = take (Z.to_nat (end_ - 1)) sent).
  { rewrite <- (take_min_length sent (Z.to_nat (end_ - 1))). f_equal.
    unfold k, len. lia. }
  assert (Hshort : (length tags <= Z.to_nat (end_ - 1))%nat) by lia.
  assert (Hcover : take (length tags) sent `prefix_of` take k sent).
  { rewrite Hk.
    replace (length tags) with (Nat.min (length tags) (Z.to_nat (end_ - 1))) by lia.
    rewrite <- take_take. apply prefix_take. }
  assert (Hexact : end_ <= len row -> take (length tags) sent = take k sent).
  { intros Hfit. rewrite Hk. unfold len in Hfit.
    destruct (Z.to_nat (end_ - 1)) as [|e] eqn:He.
    - replace (length tags) with 0%nat by lia. done.
    - f_equal. lia. }
  destruct (decode_tags_spec sent tags) as (st & Hwalk & Hdec & Hcons & Hlens & Hopen & _).
  split; [|split; [|split]].
  - rewrite (decode_example_unfold _ _ _ _ _ _ _ _ Hex Hrow Htags).
    fold sent. rewrite Hdec. cbn [rbind fst snd]. eexists. split; [done|].
    rewrite py_zip_fst by done. split.
    + etrans; [|exact Hcover]. by apply (decode_tags_prefix _ _ _ Hdec).
    + intros Hfit Hhead. rewrite Hopen by done. by apply Hexact.
  - unfold decode_tags. rewrite walk_take_sent; [done|].
    unfold k, len. lia.
  - unfold decode_tags. rewrite walk_take_tags; [done|]. by left.
  - intros Hfit. exists st. split; [done|]. rewrite Hcons. by apply Hexact.
Qed.

Lemma walk_stops_at_shorter_witness :
  (exists pairs : list (pystr * pystr),
     decode_example [beijing] msra_id2label [beijing_row] 0 4 = Ok pairs /\
     mjoin (map fst pairs) = bei ++ jing ++ huan) /\
  decode_tags (bei ++ jing ++ huan) [lit "B-LOC"; lit "I-LOC"; lit "O"]
    = decode_tags (bei ++ jing ++ huan ++ ying ++ ni) [lit "B-LOC"; lit "I-LOC"; lit "O"] /\
  (exists st : walk_state,
     walk walk_init (bei ++ jing ++ huan ++ ying ++ ni)
       [lit "B-LOC"; lit "I-LOC"; lit "O"] = Ok st /\
     consumed st = bei ++ jing ++ huan).
Proof.
  destruct (walk_stops_at_shorter [beijing] msra_id2label [beijing_row] 0 4
              beijing beijing_row [lit "B-LOC"; lit "I-LOC"; lit "O"])
    as ((pairs & Hrun & _ & Hexact) & Hsent & _ & Hwalk).
  - reflexivity.
  - reflexivity.
  - vm_compute. reflexivity.
  - lia.
  - split; [|split; [exact Hsent|]].
    + exists pairs. split; [exact Hrun|].
      apply Hexact; [vm_compute; discriminate|reflexivity].
    + apply Hwalk. vm_compute. discriminate.
Defined.


(** * The functions on a store

    The programs on a store are run symbolically: each operation has an
    equation for its result and the store it leaves, and a store is kept
    as the initial one followed by the objects allocated since, with the
    in-place updates on top.  The aligner and the decoder on a store are
    then shown to return what the functions of the first model compute
    from the content of their arguments, and to change no object that
    existed before the call. *)

(** ** The operations *)

Section StoreFacts.

Context {T : Type}.

Lemma bind_val {A B : Type} (m : M T A) (k : A -> M T B) (st st' : state T) (a : A) :
  m st = (Val a, st') -> bind m k st = k a st'.
Proof. intros H. unfold bind. by rewrite H. Qed.

Lemma bind_exc {A B : Type} (m : M T A) (k : A -> M T B) (st st' : state T) (e : error) :
  m st = (Exc e, st') -> bind m k st = (Exc e, st').
Proof. intros H. unfold bind. by rewrite H. Qed.

Lemma bind_assoc {A B C : Type} (m : M T A) (k1 : A -> M T B) (k2 : B -> M T C)
    (st : state T) :
  bind (bind m k1) k2 st = bind m (fun a => bind (k1 a) k2) st.
Proof. unfold bind. by destruct (m st) as [[a|e] st']. Qed.

Lemma bind_ret {A B : Type} (a : A) (k : A -> M T B) (st : state T) :
  bind (ret a) k st = k a st.
Proof. reflexivity. Qed.

Lemma run_list_items (h : list obj) (t : T) (r : nat) (items : list value) :
  h !! r = Some (OList items) ->
  list_items (VRef r) (mk_state h t) = (Val items, mk_state h t).
Proof. intros H. unfold list_items, bind, as_ref, ret, load. cbn. by rewrite H. Qed.

Lemma run_dict_fields (h : list obj) (t : T) (r : nat) (fields : gmap string value) :
  h !! r = Some (ODict fields) ->
  dict_fields (VRef r) (mk_state h t) = (Val fields, mk_state h t).
Proof. intros H. unfold dict_fields, bind, as_ref, ret, load. cbn. by rewrite H. Qed.

Lemma run_dict_get (h : list obj) (t : T) (r : nat) (fields : gmap string value)
    (k : string) (v : value) :
  h !! r = Some (ODict fields) -> fields !! k = Some v ->
  dict_get (VRef r) k (mk_state h t) = (Val v, mk_state h t).
Proof.
  intros H Hk. unfold dict_get. rewrite (bind_val _ _ _ _ _ (run_dict_fields _ _ _ _ H)).
  by rewrite Hk.
Qed.

Lemma run_dict_set (h : list obj) (t : T) (r : nat) (fields : gmap string value)
    (k : string) (v : value) :
  h !! r = Some (ODict fields) ->
  dict_set (VRef r) k v (mk_state h t)
  = (Val tt, mk_state (<[r := ODict (<[k := v]> fields)]> h) t).
Proof.
  intros H. unfold dict_set. cbn [as_ref]. unfold bind at 1. cbn [ret].
  by rewrite (bind_val _ _ _ _ _ (run_dict_fields _ _ _ _ H)).
Qed.

Lemma run_list_len (h : list obj) (t : T) (r : nat) (items : list value) :
  h !! r = Some (OList items) ->
  list_len (VRef r) (mk_state h t) = (Val (len items), mk_state h t).
Proof.
  intros H. unfold list_len. by rewrite (bind_val _ _ _ _ _ (run_list_items _ _ _ _ H)).
Qed.

Lemma run_new_list (h : list obj) (t : T) (items : list value) :
  new_list items (mk_state h t)
  = (Val (VRef (length h)), mk_state (h ++ [OList items]) t).
Proof. reflexivity. Qed.

Lemma run_list_slice (h : list obj) (t : T) (r : nat) (items : list value) (lo hi : Z) :
  h !! r = Some (OList items) ->
  list_slice (VRef r) lo hi (mk_state h t)
  = (Val (VRef (length h)), mk_state (h ++ [OList (py_slice lo hi items)]) t).
Proof.
  intros H. unfold list_slice. by rewrite (bind_val _ _ _ _ _ (run_list_items _ _ _ _ H)).
Qed.

Lemma run_list_add (h : list obj) (t : T) (r r' : nat) (a b : list value) :
  h !! r = Some (OList a) -> h !! r' = Some (OList b) ->
  list_add (VRef r) (VRef r') (mk_state h t)
  = (Val (VRef (length h)), mk_state (h ++ [OList (a ++ b)]) t).
Proof.
  intros H H'. unfold list_add.
  rewrite (bind_val _ _ _ _ _ (run_list_items _ _ _ _ H)).
  by rewrite (bind_val _ _ _ _ _ (run_list_items _ _ _ _ H')).
Qed.

Lemma run_list_mul (h : list obj) (t : T) (r : nat) (a : list value) (n : Z) :
  h !! r = Some (OList a) ->
  list_mul (VRef r) n (mk_state h t)
  = (Val (VRef (length h)), mk_state (h ++ [OList (py_mul a n)]) t).
Proof.
  intros H. unfold list_mul. by rewrite (bind_val _ _ _ _ _ (run_list_items _ _ _ _ H)).
Qed.

Lemma run_list_append (h : list obj) (t : T) (r : nat) (items : list value) (v : value) :
  h !! r = Some (OList items) ->
  list_append (VRef r) v (mk_state h t)
  = (Val tt, mk_state (<[r := OList (items ++ [v])]> h) t).
Proof.
  intros H. unfold list_append. cbn [as_ref]. unfold bind at 1. cbn [ret].
  by rewrite (bind_val _ _ _ _ _ (run_list_items _ _ _ _ H)).
Qed.

Lemma run_list_extend (h : list obj) (t : T) (r r' : nat) (a b : list value) :
  h !! r = Some (OList a) -> h !! r' = Some (OList b) ->
  list_extend (VRef r) (VRef r') (mk_state h t)
  = (Val tt, mk_state (<[r := OList (a ++ b)]> h) t).
Proof.
  intros H H'. unfold list_extend. cbn [as_ref]. unfold bind at 1. cbn [ret].
  rewrite (bind_val _ _ _ _ _ (run_list_items _ _ _ _ H)).
  by rewrite (bind_val _ _ _ _ _ (run_list_items _ _ _ _ H')).
Qed.

Lemma run_list_get (h : list obj) (t : T) (r : nat) (items : list value) (i : nat) :
  h !! r = Some (OList items) ->
  list_get (VRef r) i (mk_state h t)
  = (match items !! i with Some v => Val v | None => Exc (Exn IndexError) end,
     mk_state h t).
Proof.
  intros H. unfold list_get. rewrite (bind_val _ _ _ _ _ (run_list_items _ _ _ _ H)).
  unfold py_getitem. by destruct (items !! i).
Qed.

Lemma run_strs_of (st : state T) (items : list value) (ss : list (list N)) :
  strs_of_values items = Some ss -> strs_of items st = (Val ss, st).
Proof.
  revert ss. induction items as [|v items IH]; intros ss; cbn [strs_of_values strs_of].
  - by intros [= <-].
  - destruct v as [|s|]; try done.
    destruct (strs_of_values items) as [ss'|]; [|done]. intros [= <-].
    cbn [as_str]. unfold bind at 1. cbn [ret].
    by rewrite (bind_val _ _ _ _ _ (IH _ eq_refl)).
Qed.

End StoreFacts.

Lemma ints_of_values_map (l : list Z) : ints_of_values (map VInt l) = Some l.
Proof. induction l as [|z l IH]; cbn; [done|]. by rewrite IH. Qed.

Lemma ints_of_values_inv (items : list value) (l : list Z) :
  ints_of_values items = Some l -> items = map VInt l.
Proof.
  revert l. induction items as [|v items IH]; intros l; cbn [ints_of_values].
  - by intros [= <-].
  - destruct v as [z| |]; try done.
    destruct (ints_of_values items) as [zs|]; [|done]. intros [= <-].
    cbn. by rewrite (IH zs).
Qed.

Lemma strs_of_values_map (l : list (list N)) : strs_of_values (map VStr l) = Some l.
Proof. induction l as [|z l IH]; cbn; [done|]. by rewrite IH. Qed.

Lemma strs_of_values_inv (items : list value) (l : list (list N)) :
  strs_of_values items = Some l -> items = map VStr l.
Proof.
  revert l. induction items as [|v items IH]; intros l; cbn [strs_of_values].
  - by intros [= <-].
  - destruct v as [|s|]; try done.
    destruct (strs_of_values items) as [zs|]; [|done]. intros [= <-].
    cbn. by rewrite (IH zs).
Qed.

Lemma read_items_inv (h : list obj) (v : value) (items : list value) :
  read_items h v = Some items ->
  exists r, v = VRef r /\ h !! r = Some (OList items).
Proof.
  unfold read_items. destruct v as [| |r]; try done.
  destruct (h !! r) as [[| |]|] eqn:Hr; try done. intros [= ->]. eauto.
Qed.

Lemma read_fields_inv (h : list obj) (v : value) (fields : gmap string value) :
  read_fields h v = Some fields ->
  exists r, v = VRef r /\ h !! r = Some (ODict fields).
Proof.
  unfold read_fields. destruct v as [| |r]; try done.
  destruct (h !! r) as [[| |]|] eqn:Hr; try done. intros [= ->]. eauto.
Qed.

Lemma read_ints_inv (h : list obj) (v : value) (l : list Z) :
  read_ints h v = Some l ->
  exists r, v = VRef r /\ h !! r = Some (OList (map VInt l)).
Proof.
  unfold read_ints. destruct (read_items h v) as [items|] eqn:H; [|done].
  intros Hl. apply ints_of_values_inv in Hl as ->. by apply read_items_inv.
Qed.

Lemma read_strs_inv (h : list obj) (v : value) (l : list (list N)) :
  read_strs h v = Some l ->
  exists r, v = VRef r /\ h !! r = Some (OList (map VStr l)).
Proof.
  unfold read_strs. destruct (read_items h v) as [items|] eqn:H; [|done].
  intros Hl. apply strs_of_values_inv in Hl as ->. by apply read_items_inv.
Qed.

Lemma read_example_inv (h : list obj) (v : value) (ex : Example.t) :
  read_example h v = Some ex ->
  exists r fields tr lr,
    v = VRef r /\ h !! r = Some (ODict fields) /\
    fields !! "tokens" = Some (VRef tr) /\
    fields !! "labels" = Some (VRef lr) /\
    h !! tr = Some (OList (map VStr (Example.tokens ex))) /\
    h !! lr = Some (OList (map VInt (Example.labels ex))).
Proof.
  unfold read_example. destruct (read_fields h v) as [fields|] eqn:Hf; [|done].
  apply read_fields_inv in Hf as (r & -> & Hr).
  destruct (fields !! "tokens") as [tv|] eqn:Htv; [|done].
  destruct (fields !! "labels") as [lv|] eqn:Hlv; [|done].
  destruct (read_strs h tv) as [toks|] eqn:Ht; [|done].
  destruct (read_ints h lv) as [ls|] eqn:Hl; [|done].
  intros [= <-]. apply read_strs_inv in Ht as (tr & -> & Htr).
  apply read_ints_inv in Hl as (lr & -> & Hlr).
  exists r, fields, tr, lr. done.
Qed.


(** ** Stores as extensions of an initial store *)

Lemma lookup_local {A : Type} (h L : list A) (k : nat) :
  (h ++ L) !! (length h + k)%nat = L !! k.
Proof. rewrite lookup_app_r by lia. f_equal. lia. Qed.

Lemma py_slice_map {A B : Type} (f : A -> B) (lo hi : Z) (l : list A) :
  py_slice lo hi (map f l) = map f (py_slice lo hi l).
Proof.
  unfold py_slice, len. rewrite length_map.
  generalize (Z.to_nat (py_clip (Z.of_nat (length l)) hi - py_clip (Z.of_nat (length l)) lo)).
  generalize (Z.to_nat (py_clip (Z.of_nat (length l)) lo)). intros a b.
  by rewrite List.skipn_map, List.firstn_map.
Qed.

Lemma len_map {A B : Type} (f : A -> B) (l : list A) : len (map f l) = len l.
Proof. unfold len. by rewrite length_map. Qed.

Lemma lookup_snoc_eq {A : Type} (H : list A) (o : A) (i : nat) :
  i = length H -> (H ++ [o]) !! i = Some o.
Proof. intros ->. by rewrite lookup_app_r, Nat.sub_diag. Qed.

Lemma lookup_snoc_lt {A : Type} (H : list A) (o : A) (i : nat) :
  (i < length H)%nat -> (H ++ [o]) !! i = H !! i.
Proof. apply lookup_app_l. Qed.

Lemma lookup_insert_same {A : Type} (H : list A) (o : A) (i r : nat) :
  i = r -> (r < length H)%nat -> <[r := o]> H !! i = Some o.
Proof. intros ->. apply list_lookup_insert_eq. Qed.

Lemma lookup_insert_other {A : Type} (H : list A) (o : A) (i r : nat) :
  i <> r -> <[r := o]> H !! i = H !! i.
Proof. intros Hne. by apply list_lookup_insert_ne. Qed.

Lemma prefix_snoc {A : Type} (h H : list A) (o : A) :
  h `prefix_of` H -> h `prefix_of` (H ++ [o]).
Proof. apply prefix_app_r. Qed.

Lemma prefix_insert {A : Type} (h H : list A) (o : A) (r : nat) :
  h `prefix_of` H -> (length h <= r)%nat -> h `prefix_of` <[r := o]> H.
Proof.
  intros [L ->] Hr. replace r with (length h + (r - length h))%nat by lia.
  rewrite insert_app_r. by eexists.
Qed.

Ltac len_norm :=
  repeat first [rewrite length_app | rewrite length_insert]; cbn [length].

Ltac heap_rw :=
  repeat first
    [ rewrite lookup_snoc_lt by (len_norm; lia)
    | rewrite lookup_snoc_eq by (len_norm; lia)
    | rewrite lookup_insert_other by (len_norm; lia)
    | rewrite lookup_insert_same by (len_norm; lia) ].

Ltac heap_lookup := heap_rw; first [eassumption | reflexivity].

Ltac map_rw :=
  repeat first
    [ rewrite lookup_insert_eq
    | rewrite lookup_insert_ne by done ].

Ltac map_lookup :=
  repeat first
    [ rewrite lookup_insert_eq
    | rewrite lookup_insert_ne by done ];
  first [eassumption | reflexivity].

Ltac step lem := rewrite ?bind_assoc; erewrite bind_val; [|eapply lem; first [heap_lookup | map_lookup]].

Ltac prefix_tac :=
  repeat first [apply prefix_snoc | (apply prefix_insert; [|len_norm; lia])];
  first [reflexivity | eassumption].

Lemma py_mul_map {A B : Type} (f : A -> B) (l : list A) (k : Z) :
  py_mul (map f l) k = map f (py_mul l k).
Proof.
  unfold py_mul. induction (Z.to_nat k) as [|n IH]; [done|].
  cbn [replicate]. change (mjoin (?x :: ?xs)) with (x ++ mjoin xs).
  by rewrite map_app, IH.
Qed.

Lemma aligned_content (no_entity_id n : Z) (kept : list Z) :
  ints_of_values
    ((([VInt no_entity_id] ++ map VInt kept) ++ [VInt no_entity_id])
     ++ py_mul [VInt no_entity_id]
          (n - len (([VInt no_entity_id] ++ map VInt kept) ++ [VInt no_entity_id])))
  = Some ([no_entity_id] ++ kept ++ [no_entity_id]
          ++ replicate (Z.to_nat (n - (len kept + 2))) no_entity_id).
Proof.
  change [VInt no_entity_id] with (map VInt [no_entity_id]).
  rewrite py_mul_map, <- !map_app, ints_of_values_map, len_map, py_mul_singleton.
  f_equal. rewrite <- !app_assoc. do 3 f_equal.
  unfold len. repeat (rewrite length_app || simpl length). f_equal. lia.
Qed.

(** ** The aligner on a store *)

Section AlignOnStore.

Context {T : Type}.
Variable tokenizer : T -> list (list N) -> Z -> result TokenizedInput.t * T.

(** When the tokenizer raises, the aligner raises the same exception and
    the store is as before; only the tokenizer's state has moved. *)
Lemma h_align_raises (st : state T) (example : value) (ex : Example.t)
    (no_entity_id max_seq_len : Z) (e : exn) (t' : T) :
  read_example (heap st) example = Some ex ->
  tokenizer (tok st) (Example.tokens ex) max_seq_len = (Raise e, t') ->
  h_tokenize_and_align_labels tokenizer example no_entity_id max_seq_len st
  = (Exc (Exn e), mk_state (heap st) t').
Proof.
  intros Hex Htok. destruct st as [h t]. cbn [heap tok] in *.
  apply read_example_inv in Hex as (r & fields & tr & lr & -> & Hr & Htr & Hlr & Htoks & Hls).
  unfold h_tokenize_and_align_labels.
  rewrite (bind_val _ _ _ _ _ (run_dict_get _ _ _ _ _ _ Hr Hlr)).
  rewrite (bind_val _ _ _ _ _ (run_dict_get _ _ _ _ _ _ Hr Htr)).
  erewrite bind_exc; [done|]. unfold call_tokenizer.
  rewrite (bind_val _ _ _ _ _ (run_list_items _ _ _ _ Htoks)).
  rewrite (bind_val _ _ _ _ _ (run_strs_of _ _ _ (strs_of_values_map _))).
  erewrite bind_exc; [done|]. cbn [heap tok]. by rewrite Htok.
Qed.

(** When the tokenizer answers, the aligner returns a new dictionary: the
    tokenizer's answer with the aligned labels under ['labels'].  The
    store it leaves extends the one it started from. *)
Lemma h_align_returns (st : state T) (example : value) (ex : Example.t)
    (no_entity_id max_seq_len : Z) (ti : TokenizedInput.t) (t' : T) :
  read_example (heap st) example = Some ex ->
  tokenizer (tok st) (Example.tokens ex) max_seq_len = (Ok ti, t') ->
  exists (r : nat) (h' : list obj),
    h_tokenize_and_align_labels tokenizer example no_entity_id max_seq_len st
    = (Val (VRef r), mk_state h' t') /\
    heap st `prefix_of` h' /\
    read_tokenized h' (VRef r)
    = Some (TokenizedInput.set_labels ti
              ([no_entity_id]
               ++ kept_labels (len (TokenizedInput.input_ids ti)) (Example.labels ex)
               ++ [no_entity_id]
               ++ replicate
                    (Z.to_nat (len (TokenizedInput.input_ids ti)
                               - (len (kept_labels (len (TokenizedInput.input_ids ti))
                                         (Example.labels ex)) + 2)))
                    no_entity_id)).
Proof.
  intros Hex Htok. destruct st as [h t]. cbn [heap tok] in *.
  apply read_example_inv in Hex as (r & fields & tr & lr & -> & Hr & Htr & Hlr & Htoks & Hls).
  assert (Hr' : (r < length h)%nat) by (eapply lookup_lt_Some; eassumption).
  assert (Hlr' : (lr < length h)%nat) by (eapply lookup_lt_Some; eassumption).
  unfold h_tokenize_and_align_labels.
  rewrite (bind_val _ _ _ _ _ (run_dict_get _ _ _ _ _ _ Hr Hlr)).
  rewrite (bind_val _ _ _ _ _ (run_dict_get _ _ _ _ _ _ Hr Htr)).
  unfold call_tokenizer.
  unfold bind at 1.
  rewrite (bind_val _ _ _ _ _ (run_list_items _ _ _ _ Htoks)).
  rewrite (bind_val _ _ _ _ _ (run_strs_of _ _ _ (strs_of_values_map _))).
  unfold bind at 1. cbn [heap tok]. rewrite Htok.
  destruct ti as [ids tys sl [ls0|]]; cbn [TokenizedInput.labels TokenizedInput.input_ids
      TokenizedInput.token_type_ids TokenizedInput.seq_len].
  all: cbn [bind new_list alloc ret heap tok].
  all: step @run_dict_get; step @run_list_len; step @run_list_len.
  all: rewrite !len_map.
  all: unfold kept_labels.
  all: destruct (Z.ltb_spec (len ids - 2) (len (Example.labels ex))) as [Hcut|Hfit].
  all: try (rewrite !bind_assoc; step @run_dict_get; step @run_list_len;
            rewrite len_map; step @run_list_slice).
  all: rewrite ?bind_ret.
  all: cbn [bind new_list alloc ret heap tok].
  all: step @run_list_add.
  all: cbn [bind new_list alloc ret heap tok].
  all: step @run_list_add.
  all: step @run_dict_set.
  all: step @run_dict_get.
  all: cbn [bind new_list alloc ret heap tok].
  all: step @run_dict_get; step @run_list_len.
  all: step @run_dict_get; step @run_list_len.
  all: step @run_list_mul.
  all: step @run_list_extend.
  all: step @run_dict_set.
  all: cbn [ret].
  all: eexists _, _; split; [reflexivity|]; split; [prefix_tac|].
  all: unfold read_tokenized, read_fields; heap_rw; cbv beta iota; map_rw.
  all: unfold read_ints, read_items; heap_rw; cbv beta iota.
  all: rewrite ?py_slice_map, !ints_of_values_map, aligned_content, ?len_map.
  all: reflexivity.
Qed.

End AlignOnStore.

(** ** The decoder on a store *)

Lemma read_each_lookup {A : Type} (f : value -> option A) (items : list value)
    (l : list A) (i : nat) :
  read_each f items = Some l ->
  match items !! i with
  | Some v => exists a, f v = Some a /\ l !! i = Some a
  | None => l !! i = None
  end.
Proof.
  revert l i. induction items as [|v items IH]; intros l i; cbn [read_each].
  - by intros [= <-].
  - destruct (f v) as [a|] eqn:Hv; [|done].
    destruct (read_each f items) as [l'|] eqn:Hl; [|done]. intros [= <-].
    destruct i as [|i]; cbn; [eauto|]. by apply IH.
Qed.

Lemma read_each_Forall2 {A : Type} (f : value -> option A) (items : list value)
    (l : list A) :
  read_each f items = Some l -> Forall2 (fun v a => f v = Some a) items l.
Proof.
  revert l. induction items as [|v items IH]; intros l; cbn [read_each].
  - intros [= <-]. constructor.
  - destruct (f v) as [a|] eqn:Hv; [|done].
    destruct (read_each f items) as [l'|] eqn:Hl; [|done]. intros [= <-].
    constructor; [done|]. by apply IH.
Qed.

Lemma read_list_inv {A : Type} (f : value -> option A) (h : list obj) (v : value)
    (l : list A) :
  read_list f h v = Some l ->
  exists r items, v = VRef r /\ h !! r = Some (OList items) /\ read_each f items = Some l.
Proof.
  unfold read_list. destruct (read_items h v) as [items|] eqn:H; [|done].
  apply read_items_inv in H as (r & -> & Hr). eauto.
Qed.

Lemma run_list_get_some {T : Type} (h : list obj) (t : T) (r : nat) (items : list value)
    (i : nat) (v : value) :
  h !! r = Some (OList items) -> items !! i = Some v ->
  list_get (VRef r) i (mk_state h t) = (Val v, mk_state h t).
Proof. intros H Hi. by rewrite (run_list_get _ _ _ _ i H), Hi. Qed.

Lemma run_list_get_none {T : Type} (h : list obj) (t : T) (r : nat) (items : list value)
    (i : nat) :
  h !! r = Some (OList items) -> items !! i = None ->
  list_get (VRef r) i (mk_state h t) = (Exc (Exn IndexError), mk_state h t).
Proof. intros H Hi. by rewrite (run_list_get _ _ _ _ i H), Hi. Qed.

Lemma insert_two_absorb {A : Type} (h : list A) (a b : nat) (x y x' y' : A) :
  a <> b ->
  <[b := x']> (<[a := y']> (<[b := x]> (<[a := y]> h))) = <[b := x']> (<[a := y']> h).
Proof.
  intros Hne. rewrite (list_insert_insert_ne _ a b) by done.
  rewrite (list_insert_insert_eq _ b). by rewrite (list_insert_insert_eq _ a).
Qed.

Section DecodeOnStore.

Context {T : Type}.
Variable str_pair : list N * list N -> list N.

(** Appending items one by one extends the list in place. *)
Lemma run_append_each (h : list obj) (t : T) (r : nat) (items xs : list value) :
  h !! r = Some (OList items) ->
  append_each (VRef r) xs (mk_state h t)
  = (Val tt, mk_state (<[r := OList (items ++ xs)]> h) t).
Proof.
  revert h items. induction xs as [|x xs IH]; intros h items Hr; cbn [append_each].
  - by rewrite app_nil_r, list_insert_id.
  - rewrite (bind_val _ _ _ _ _ (run_list_append _ _ _ _ x Hr)).
    rewrite (IH _ (items ++ [x])).
    + by rewrite list_insert_insert_eq, <- app_assoc.
    + apply list_lookup_insert_eq. by eapply lookup_lt_Some.
Qed.

(** The comprehensions of lines 38-39: the new list ends with the items of
    all batches, in order. *)
Lemma run_flatten (h : list obj) (t : T) (r : nat) (acc : list value)
    (batches : list value) (contents : list (list value)) :
  h !! r = Some (OList acc) ->
  Forall2 (fun bv items => exists rb, bv = VRef rb /\ rb <> r /\
                                      h !! rb = Some (OList items))
          batches contents ->
  h_flatten (VRef r) batches (mk_state h t)
  = (Val tt, mk_state (<[r := OList (acc ++ mjoin contents)]> h) t).
Proof.
  revert h acc contents. induction batches as [|bv batches IH];
    intros h acc contents Hr Hall.
  - apply Forall2_nil_inv_l in Hall as ->. cbn. by rewrite app_nil_r, list_insert_id.
  - apply Forall2_cons_inv_l in Hall as (items & contents' & (rb & -> & Hne & Hrb) & Hall & ->).
    cbn [h_flatten].
    rewrite (bind_val _ _ _ _ _ (run_list_items _ _ _ _ Hrb)).
    rewrite (bind_val _ _ _ _ _ (run_append_each _ _ _ _ items Hr)).
    rewrite (IH _ (acc ++ items) contents').
    + rewrite list_insert_insert_eq. cbn. by rewrite <- app_assoc.
    + apply list_lookup_insert_eq. by eapply lookup_lt_Some.
    + eapply Forall2_impl; [exact Hall|]. cbn.
      intros bv' items' (rb' & -> & Hne' & Hrb'). exists rb'.
      split; [done|]. split; [done|]. by rewrite list_lookup_insert_ne.
Qed.

Lemma run_table_get (h : list obj) (t : T) (r : nat) (entries : gmap Z value) (k : Z) :
  h !! r = Some (OTable entries) ->
  table_get (VRef r) k (mk_state h t)
  = (match entries !! k with
     | Some v => Val v
     | None => Exc (Exn (KeyError k))
     end, mk_state h t).
Proof.
  intros H. unfold table_get, table_entries, bind, as_ref, ret, load. cbn.
  rewrite H. by destruct (entries !! k).
Qed.

(** The comprehension of line 44 on a store: it changes the new list only,
    and raises what the lookup of an id raises. *)
Lemma run_lookup_tags (h : list obj) (t : T) (rt r : nat) (id2label : gmap Z (list N))
    (acc : list value) (ids : list Z) :
  rt <> r ->
  h !! rt = Some (OTable (VStr <$> id2label)) ->
  h !! r = Some (OList acc) ->
  exists found : list value,
    h_lookup_tags (VRef rt) (VRef r) (map VInt ids) (mk_state h t)
    = (match lookup_tags id2label ids with
       | Ok _ => Val tt
       | Raise e => Exc (Exn e)
       end, mk_state (<[r := OList (acc ++ found)]> h) t) /\
    (forall tags, lookup_tags id2label ids = Ok tags -> found = map VStr tags).
Proof.
  intros Hne. revert h acc. induction ids as [|x ids IH]; intros h acc Hrt Hr.
  - exists []. cbn. rewrite app_nil_r, list_insert_id by done. split; [done|].
    by intros tags [= <-].
  - cbn [map h_lookup_tags lookup_tags as_int]. rewrite bind_ret.
    unfold dict_getitem.
    destruct (id2label !! x) as [tag|] eqn:Hx; cbn [rbind].
    + erewrite bind_val; [|rewrite (run_table_get _ _ _ _ _ Hrt), lookup_fmap, Hx; reflexivity].
      rewrite (bind_val _ _ _ _ _ (run_list_append _ _ _ _ (VStr tag) Hr)).
      destruct (IH (<[r := OList (acc ++ [VStr tag])]> h) (acc ++ [VStr tag]))
        as (found & Hrun & Hok).
      { by rewrite list_lookup_insert_ne. }
      { apply list_lookup_insert_eq. by eapply lookup_lt_Some. }
      exists (VStr tag :: found). rewrite Hrun, list_insert_insert_eq, <- app_assoc. split.
      { by destruct (lookup_tags id2label ids). }
      destruct (lookup_tags id2label ids) as [ts|]; cbn [rbind]; [|done].
      intros tags [= <-]. by rewrite (Hok ts eq_refl).
    + exists []. 
      erewrite bind_exc; [|rewrite (run_table_get _ _ _ _ _ Hrt), lookup_fmap, Hx; reflexivity].
      rewrite app_nil_r, list_insert_id by done. done.
Qed.

(** The loop of lines 48-60 on a store: the two lists end with the spans
    and the types of the pure walk. *)
Lemma run_walk (h : list obj) (t : T) (a b : nat) (st st' : walk_state)
    (sent : list N) (tags : list (list N)) :
  a <> b ->
  h !! a = Some (OList (map VStr (sent_out st))) ->
  h !! b = Some (OList (map VStr (tags_out st))) ->
  walk st sent tags = Ok st' ->
  h_walk (VRef a) (VRef b) (words st) sent (map VStr tags) (mk_state h t)
  = (Val (words st'),
     mk_state (<[b := OList (map VStr (tags_out st'))]>
                 (<[a := OList (map VStr (sent_out st'))]> h)) t).
Proof.
  intros Hne. revert h st tags.
  induction sent as [|s sent IH]; intros h st [|tg tags] Ha Hb Hw.
  1-3: cbn in Hw; injection Hw as <-; cbn [h_walk map];
       by rewrite (list_insert_id h a), list_insert_id.
  cbn [walk] in Hw. cbn [map h_walk as_str]. rewrite bind_ret.
  assert (Hla : (a < length h)%nat) by (eapply lookup_lt_Some; eassumption).
  assert (Hlb : (b < length h)%nat) by (eapply lookup_lt_Some; eassumption).
  unfold walk_step in Hw.
  destruct (opens_span tg).
  - set (so' := if 0 <? len (words st) then sent_out st ++ [words st] else sent_out st) in *.
    assert (Hflush :
      (if 0 <? len (words st) then list_append (VRef a) (VStr (words st)) else ret tt)
        (mk_state h t)
      = (Val tt, mk_state (<[a := OList (map VStr so')]> h) t)).
    { subst so'. destruct (0 <? len (words st)).
      - rewrite (run_list_append _ _ _ _ _ Ha). by rewrite map_app.
      - cbn. by rewrite list_insert_id. }
    rewrite (bind_val _ _ _ _ _ Hflush).
    assert (Hb' : <[a := OList (map VStr so')]> h !! b = Some (OList (map VStr (tags_out st))))
      by (by rewrite list_lookup_insert_ne).
    destruct (py_startswith tg B_prefix).
    + destruct (py_getitem (py_split hyphen tg) 1) as [ty|e]; cbn [rbind] in Hw; [|done].
      cbn [lift]. rewrite bind_ret.
      rewrite (bind_val _ _ _ _ _ (run_list_append _ _ _ _ (VStr ty) Hb')).
      rewrite (IH _ {| sent_out := so'; tags_out := tags_out st ++ [ty]; words := [s] |} tags);
        cbn [sent_out tags_out words]; try done.
      * by rewrite insert_two_absorb.
      * rewrite list_lookup_insert_ne by done. apply list_lookup_insert_eq. done.
      * rewrite map_app. apply list_lookup_insert_eq. by rewrite length_insert.
    + rewrite (bind_val _ _ _ _ _ (run_list_append _ _ _ _ (VStr tg) Hb')).
      rewrite (IH _ {| sent_out := so'; tags_out := tags_out st ++ [tg]; words := [s] |} tags);
        cbn [sent_out tags_out words]; try done.
      * by rewrite insert_two_absorb.
      * rewrite list_lookup_insert_ne by done. apply list_lookup_insert_eq. done.
      * rewrite map_app. apply list_lookup_insert_eq. by rewrite length_insert.
  - cbn [rbind] in Hw.
    by rewrite (IH _ {| sent_out := sent_out st; tags_out := tags_out st;
                        words := words st ++ [s] |} tags).
Qed.

End DecodeOnStore.

Section DecodeExampleOnStore.

Context {T : Type}.
Variable str_pair : list N * list N -> list N.

(** One iteration of the loop of line 42, from a store [h] that extends
    the store [h0] in which the arguments were read: the iteration raises
    what [decode_example] raises, or appends the rendered pairs of
    [decode_example] to [outputs]; the store it leaves still extends
    [h0]. *)
Lemma run_decode_example (h0 h : list obj) (t : T) (input_words : value)
    (exs : list Example.t) (rt : nat) (id2label : gmap Z (list N))
    (d o : nat) (rows_v outs : list value) (rows : list (list Z))
    (idx : nat) (e : Z) :
  h0 `prefix_of` h ->
  read_list (read_example h0) h0 input_words = Some exs ->
  h0 !! rt = Some (OTable (VStr <$> id2label)) ->
  h !! d = Some (OList rows_v) ->
  read_each (read_ints h0) rows_v = Some rows ->
  h !! o = Some (OList outs) ->
  (length h0 <= o)%nat -> d <> o ->
  exists h' : list obj,
    h_decode_example str_pair input_words (VRef rt) (VRef d) (VRef o) idx (VInt e)
      (mk_state h t)
    = (match decode_example exs id2label rows idx e with
       | Ok _ => Val tt
       | Raise x => Exc (Exn x)
       end, mk_state h' t) /\
    h0 `prefix_of` h' /\
    h' !! d = Some (OList rows_v) /\
    h' !! o = Some (OList (outs ++ match decode_example exs id2label rows idx e with
                                   | Ok pairs => [VStr (py_join (map str_pair pairs))]
                                   | Raise _ => []
                                   end)).
Proof.
  intros Hp Hiw Hrt Hd Hrows Ho Hlo Hdo.
  apply read_list_inv in Hiw as (riw & items & -> & Hriw & Hexs).
  pose proof (prefix_length _ _ Hp) as Hlen.
  assert (Hld : (d < length h)%nat) by (eapply lookup_lt_Some; eassumption).
  assert (Hlo' : (o < length h)%nat) by (eapply lookup_lt_Some; eassumption).
  assert (Hlrt : (rt < length h0)%nat) by (eapply lookup_lt_Some; eassumption).
  pose proof (prefix_lookup_Some _ _ _ _ Hriw Hp) as Hriw'.
  pose proof (prefix_lookup_Some _ _ _ _ Hrt Hp) as Hrt'.
  unfold h_decode_example.
  remember (decode_example exs id2label rows idx e) as res eqn:Hres.
  unfold decode_example, py_getitem in Hres.
  pose proof (read_each_lookup _ _ _ idx Hexs) as Hex.
  destruct (items !! idx) as [exv|] eqn:Hidx; cycle 1.
  { rewrite (bind_exc _ _ _ _ _ (run_list_get_none _ _ _ _ _ Hriw' Hidx)).
    rewrite Hex in Hres. cbn [rbind] in Hres. subst res.
    exists h. rewrite app_nil_r. done. }
  destruct Hex as (ex & Hex & Hex'). rewrite Hex' in Hres. cbn [rbind] in Hres.
  rewrite (bind_val _ _ _ _ _ (run_list_get_some _ _ _ _ _ _ Hriw' Hidx)).
  apply read_example_inv in Hex as (r & fields & tr & lr & -> & Hr & Htr & _ & Htoks & _).
  pose proof (prefix_lookup_Some _ _ _ _ Hr Hp) as Hr'.
  pose proof (prefix_lookup_Some _ _ _ _ Htoks Hp) as Htoks'.
  rewrite (bind_val _ _ _ _ _ (run_dict_get _ _ _ _ _ _ Hr' Htr)).
  rewrite (bind_val _ _ _ _ _ (run_list_items _ _ _ _ Htoks')).
  rewrite (bind_val _ _ _ _ _ (run_strs_of _ _ _ (strs_of_values_map _))).
  cbv zeta.
  pose proof (read_each_lookup _ _ _ idx Hrows) as Hrow.
  destruct (rows_v !! idx) as [rv|] eqn:Hidx'; cycle 1.
  { rewrite (bind_exc _ _ _ _ _ (run_list_get_none _ _ _ _ _ Hd Hidx')).
    rewrite Hrow in Hres. cbn [rbind] in Hres. subst res.
    exists h. rewrite app_nil_r. done. }
  destruct Hrow as (row & Hrow & Hrow'). rewrite Hrow' in Hres. cbn [rbind] in Hres.
  rewrite (bind_val _ _ _ _ _ (run_list_get_some _ _ _ _ _ _ Hd Hidx')).
  apply read_ints_inv in Hrow as (rr & -> & Hrr).
  pose proof (prefix_lookup_Some _ _ _ _ Hrr Hp) as Hrr'.
  cbn [as_int]. rewrite bind_ret.
  rewrite (bind_val _ _ _ _ _ (run_list_slice _ _ _ _ 1 e Hrr')).
  step @run_list_items. rewrite py_slice_map.
  rewrite (bind_val _ _ _ _ _ (run_new_list _ _ _)).
  destruct (run_lookup_tags ((h ++ [OList (map VInt (py_slice 1 e row))]) ++ [OList []]) t
              rt (length (h ++ [OList (map VInt (py_slice 1 e row))])) id2label []
              (py_slice 1 e row)) as (found & Hrun & Hfound).
  { len_norm. lia. }
  { heap_lookup. }
  { heap_lookup. }
  cbn [app] in Hrun.
  destruct (lookup_tags id2label (py_slice 1 e row)) as [tags|x] eqn:Htags;
    cbn [rbind] in Hres; cycle 1.
  { rewrite (bind_exc _ _ _ _ _ Hrun). subst res. eexists. split; [reflexivity|].
    split; [prefix_tac|]. split; [heap_lookup|]. rewrite app_nil_r. heap_lookup. }
  rewrite (bind_val _ _ _ _ _ Hrun). rewrite (Hfound _ eq_refl). clear Hrun Hfound.
  rewrite (bind_val _ _ _ _ _ (run_new_list _ _ _)).
  rewrite (bind_val _ _ _ _ _ (run_new_list _ _ _)).
  step @run_list_items.
  destruct (walk_total walk_init (py_join (Example.tokens ex)) tags) as [st' Hw].
  unfold decode_tags in Hres. rewrite Hw in Hres. cbn [rbind fst snd] in Hres.
  erewrite bind_val; cycle 1.
  { eapply (run_walk _ _ _ _ walk_init st'); [len_norm; lia|heap_lookup|heap_lookup|exact Hw]. }
  step @run_list_len. step @run_list_len. rewrite !len_map.
  unfold fixup in Hres.
  destruct (len (sent_out st') <? len (tags_out st')); cbn [sent_out tags_out] in Hres.
  - step @run_list_append.
    change [VStr (words st')] with (map VStr [words st']). rewrite <- map_app.
    step @run_list_items.
    erewrite bind_val; [|apply run_strs_of, strs_of_values_map].
    step @run_list_items.
    erewrite bind_val; [|apply run_strs_of, strs_of_values_map].
    erewrite run_list_append; [|heap_lookup]. subst res.
    eexists. split; [reflexivity|].
    split; [prefix_tac|]. split; heap_lookup.
  - rewrite bind_ret.
    step @run_list_items.
    erewrite bind_val; [|apply run_strs_of, strs_of_values_map].
    step @run_list_items.
    erewrite bind_val; [|apply run_strs_of, strs_of_values_map].
    erewrite run_list_append; [|heap_lookup]. subst res.
    eexists. split; [reflexivity|].
    split; [prefix_tac|]. split; heap_lookup.
Qed.

End DecodeExampleOnStore.

Lemma read_each_app {A : Type} (f : value -> option A) (a b : list value) (x y : list A) :
  read_each f a = Some x -> read_each f b = Some y -> read_each f (a ++ b) = Some (x ++ y).
Proof.
  revert x. induction a as [|v a IH]; intros x; cbn [read_each app].
  - by intros [= <-].
  - destruct (f v) as [w|]; [|done].
    destruct (read_each f a) as [l|]; [|done]. intros [= <-] Hb.
    by rewrite (IH l eq_refl Hb).
Qed.

Lemma read_each_ints (h : list obj) (items : list value) (ls : list (list Z)) :
  read_each (read_ints h) items = Some ls ->
  Forall2 (fun bv its => exists rb, bv = VRef rb /\ h !! rb = Some (OList its))
          items (map (map VInt) ls).
Proof.
  intros H. apply read_each_Forall2 in H. induction H as [|v l items ls Hv _ IH]; cbn.
  - constructor.
  - constructor; [|done]. by apply read_ints_inv.
Qed.

Lemma mjoin_map_map {A B : Type} (f : A -> B) (ls : list (list A)) :
  mjoin (map (map f) ls) = map f (mjoin ls).
Proof.
  induction ls as [|l ls IH]; [done|].
  cbn [map]. change (mjoin (?x :: ?xs)) with (x ++ mjoin xs). by rewrite IH, map_app.
Qed.

Lemma read_each_rows (h : list obj) (items : list value) (dec : list (list (list Z))) :
  read_each (read_rows h) items = Some dec ->
  exists contents : list (list value),
    Forall2 (fun bv its => exists rb, bv = VRef rb /\ h !! rb = Some (OList its))
            items contents /\
    read_each (read_ints h) (mjoin contents) = Some (mjoin dec).
Proof.
  intros H. apply read_each_Forall2 in H. induction H as [|v l items ls Hv _ IH].
  - exists []. split; [constructor|done].
  - destruct IH as (contents & Hall & Hread).
    apply read_list_inv in Hv as (rb & its & -> & Hrb & Hits).
    exists (its :: contents). split.
    + constructor; [eauto|done].
    + change (mjoin (?x :: ?xs)) with (x ++ mjoin xs). by apply read_each_app.
Qed.

Lemma Forall2_on_extension (h0 h : list obj) (r : nat) (items : list value)
    (contents : list (list value)) :
  h0 `prefix_of` h -> (length h0 <= r)%nat ->
  Forall2 (fun bv its => exists rb, bv = VRef rb /\ h0 !! rb = Some (OList its))
          items contents ->
  Forall2 (fun bv its => exists rb, bv = VRef rb /\ rb <> r /\ h !! rb = Some (OList its))
          items contents.
Proof.
  intros Hp Hr Hall. eapply Forall2_impl; [exact Hall|]. cbn.
  intros bv its (rb & -> & Hrb). exists rb. split; [done|].
  pose proof (lookup_lt_Some _ _ _ Hrb). split; [lia|].
  by eapply prefix_lookup_Some.
Qed.

Section ParseOnStore.

Context {T : Type}.
Variable str_pair : list N * list N -> list N.

(** The loop of line 42 from position [idx] on. *)
Lemma run_decode_from (h0 : list obj) (t : T) (input_words : value)
    (exs : list Example.t) (rt : nat) (id2label : gmap Z (list N))
    (d o : nat) (rows_v : list value) (rows : list (list Z)) (lens : list Z) :
  read_list (read_example h0) h0 input_words = Some exs ->
  h0 !! rt = Some (OTable (VStr <$> id2label)) ->
  read_each (read_ints h0) rows_v = Some rows ->
  (length h0 <= o)%nat -> d <> o ->
  forall (h : list obj) (outs : list value) (idx : nat),
  h0 `prefix_of` h ->
  h !! d = Some (OList rows_v) ->
  h !! o = Some (OList outs) ->
  exists h' : list obj,
    h_decode_from str_pair input_words (VRef rt) (VRef d) (VRef o) idx (map VInt lens)
      (mk_state h t)
    = (match decode_from exs id2label rows idx lens with
       | Ok _ => Val tt
       | Raise x => Exc (Exn x)
       end, mk_state h' t) /\
    h0 `prefix_of` h' /\
    (forall os, decode_from exs id2label rows idx lens = Ok os ->
       h' !! o = Some (OList (outs ++ map (fun pairs => VStr (py_join (map str_pair pairs))) os))).
Proof.
  intros Hiw Hrt Hrows Hlo Hdo.
  induction lens as [|e lens IH]; intros h outs idx Hp Hd Ho.
  - exists h. cbn. split; [done|]. split; [done|]. intros os [= <-]. cbn.
    by rewrite app_nil_r.
  - cbn [map h_decode_from decode_from].
    destruct (run_decode_example str_pair h0 h t input_words exs rt id2label d o rows_v outs
                rows idx e Hp Hiw Hrt Hd Hrows Ho Hlo Hdo) as (h1 & Hrun & Hp1 & Hd1 & Ho1).
    destruct (decode_example exs id2label rows idx e) as [pairs|x]; cbn [rbind].
    + rewrite (bind_val _ _ _ _ _ Hrun).
      destruct (IH h1 _ (S idx) Hp1 Hd1 Ho1) as (h2 & Hrun2 & Hp2 & Ho2).
      exists h2. rewrite Hrun2. split.
      { by destruct (decode_from exs id2label rows (S idx) lens). }
      split; [done|].
      destruct (decode_from exs id2label rows (S idx) lens) as [os'|]; cbn [rbind]; [|done].
      intros os [= <-]. rewrite (Ho2 _ eq_refl). cbn [map]. by rewrite <- app_assoc.
    + rewrite (bind_exc _ _ _ _ _ Hrun). exists h1. done.
Qed.

(** The decoder on a store returns a new list with the strings that
    [parse_decodes] computes from the content of the four arguments, or
    raises what it raises. *)
Lemma run_parse_decodes (h0 : list obj) (t : T) (input_words tbl decodes lens : value)
    (exs : list Example.t) (id2label : gmap Z (list N))
    (dec : list (list (list Z))) (ls : list (list Z)) :
  read_list (read_example h0) h0 input_words = Some exs ->
  is_table h0 tbl id2label ->
  read_batches h0 decodes = Some dec ->
  read_rows h0 lens = Some ls ->
  exists (r : nat) (h' : list obj),
    h_parse_decodes str_pair input_words tbl decodes lens (mk_state h0 t)
    = (match parse_decodes str_pair exs id2label dec ls with
       | Ok _ => Val (VRef r)
       | Raise x => Exc (Exn x)
       end, mk_state h' t) /\
    h0 `prefix_of` h' /\
    (forall outs, parse_decodes str_pair exs id2label dec ls = Ok outs ->
       read_strs h' (VRef r) = Some outs).
Proof.
  intros Hiw (rt & -> & Hrt) Hdec Hls.
  apply read_list_inv in Hdec as (rd & batches & -> & Hrd & Hdec).
  apply read_list_inv in Hls as (rl & lbatches & -> & Hrl & Hls).
  apply read_each_rows in Hdec as (contents & Hall & Hrows).
  pose proof (read_each_ints _ _ _ Hls) as Hall'.
  pose proof (lookup_lt_Some _ _ _ Hrd) as Hlrd.
  pose proof (lookup_lt_Some _ _ _ Hrl) as Hlrl.
  pose proof (lookup_lt_Some _ _ _ Hrt) as Hlrt.
  unfold h_parse_decodes.
  rewrite (bind_val _ _ _ _ _ (run_list_items _ _ _ _ Hrd)).
  rewrite (bind_val _ _ _ _ _ (run_new_list _ _ _)).
  erewrite bind_val; cycle 1.
  { apply run_flatten with (acc := []) (contents := contents); [heap_lookup|].
    eapply Forall2_on_extension; [|reflexivity|exact Hall]. prefix_tac. }
  cbn [app].
  step @run_list_items.
  rewrite (bind_val _ _ _ _ _ (run_new_list _ _ _)).
  erewrite bind_val; cycle 1.
  { apply run_flatten with (acc := []) (contents := map (map VInt) ls); [heap_lookup|].
    eapply Forall2_on_extension; [| |exact Hall']; [prefix_tac|len_norm; lia]. }
  cbn [app]. rewrite mjoin_map_map.
  rewrite (bind_val _ _ _ _ _ (run_new_list _ _ _)).
  step @run_list_items.
  match goal with
  | |- context [bind (h_decode_from _ _ _ (VRef ?dd) (VRef ?oo) _ _) _ (mk_state ?hh _)] =>
      destruct (fun H1 H2 => run_decode_from h0 t input_words exs rt id2label dd oo
                  (mjoin contents) (mjoin dec) (mjoin ls) Hiw Hrt Hrows H1 H2
                  hh [] 0%nat) as (h' & Hrun & Hp' & Hout);
        [len_norm; lia|len_norm; lia|prefix_tac|heap_lookup|heap_lookup|];
      exists oo, h'
  end.
  unfold parse_decodes, parse_decodes_pairs.
  destruct (decode_from exs id2label (mjoin dec) 0 (mjoin ls)) as [os|x]; cbn [rbind].
  - rewrite (bind_val _ _ _ _ _ Hrun). split; [done|]. split; [done|].
    intros outs [= <-]. unfold read_strs, read_items. rewrite (Hout _ eq_refl).
    cbn [app]. rewrite <- (map_map _ VStr). apply strs_of_values_map.
  - rewrite (bind_exc _ _ _ _ _ Hrun). done.
Qed.

End ParseOnStore.

(** ** Two runs on the same inputs *)

Section TwoRuns.

Context {T : Type}.

(** The aligner on a store returns what [tokenize_and_align_labels]
    computes from the content of the example and the tokenizer's answer. *)
Lemma h_align_refines (tokenizer : T -> list (list N) -> Z -> result TokenizedInput.t * T)
    (st : state T) (example : value) (ex : Example.t) (no_entity_id max_seq_len : Z) :
  read_example (heap st) example = Some ex ->
  let run := h_tokenize_and_align_labels tokenizer example no_entity_id max_seq_len st in
  heap st `prefix_of` heap run.2 /\
  match tokenize_and_align_labels (fun toks m => (tokenizer (tok st) toks m).1)
          ex no_entity_id max_seq_len with
  | Ok out => exists r, run.1 = Val (VRef r) /\ read_tokenized (heap run.2) (VRef r) = Some out
  | Raise e => run.1 = Exc (Exn e)
  end.
Proof.
  intros Hex. cbv zeta. unfold tokenize_and_align_labels.
  destruct (tokenizer (tok st) (Example.tokens ex) max_seq_len) as [[ti|e] t'] eqn:Htok;
    cbn [fst rbind].
  - destruct (h_align_returns tokenizer st example ex no_entity_id max_seq_len ti t' Hex Htok)
      as (r & h' & -> & Hp & Hread).
    cbn [fst snd heap]. split; [done|]. exists r. split; [done|].
    rewrite Hread. do 2 f_equal. rewrite py_mul_singleton, <- !app_assoc.
    do 4 f_equal. unfold len. repeat (rewrite length_app || cbn [length]). lia.
  - rewrite (h_align_raises tokenizer st example ex no_entity_id max_seq_len e t' Hex Htok).
    cbn [fst snd heap]. done.
Qed.

(** Two runs of the aligner from states that give the example the same
    content and in which the tokenizer answers the same. *)
Lemma align_runs_agree (tokenizer : T -> list (list N) -> Z -> result TokenizedInput.t * T)
    (st1 st2 : state T) (example1 example2 : value) (ex : Example.t)
    (no_entity_id max_seq_len : Z) :
  read_example (heap st1) example1 = Some ex ->
  read_example (heap st2) example2 = Some ex ->
  (tokenizer (tok st1) (Example.tokens ex) max_seq_len).1
  = (tokenizer (tok st2) (Example.tokens ex) max_seq_len).1 ->
  let run1 := h_tokenize_and_align_labels tokenizer example1 no_entity_id max_seq_len st1 in
  let run2 := h_tokenize_and_align_labels tokenizer example2 no_entity_id max_seq_len st2 in
  heap st1 `prefix_of` heap run1.2 /\
  heap st2 `prefix_of` heap run2.2 /\
  same_outcome read_tokenized (heap run1.2) run1.1 (heap run2.2) run2.1.
Proof.
  intros Hex1 Hex2 Htok. cbv zeta.
  destruct (h_align_refines tokenizer st1 example1 ex no_entity_id max_seq_len Hex1)
    as [Hp1 Hout1].
  destruct (h_align_refines tokenizer st2 example2 ex no_entity_id max_seq_len Hex2)
    as [Hp2 Hout2].
  split; [done|]. split; [done|].
  unfold tokenize_and_align_labels in Hout1, Hout2. rewrite <- Htok in Hout2.
  destruct (tokenizer (tok st1) (Example.tokens ex) max_seq_len).1 as [ti|e];
    cbn [rbind] in Hout1, Hout2.
  - destruct Hout1 as (r1 & -> & Hr1), Hout2 as (r2 & -> & Hr2).
    cbn [same_outcome]. rewrite Hr1, Hr2. split; [by eexists|done].
  - rewrite Hout1, Hout2. done.
Qed.

(** Two runs of the decoder from states that give the four arguments the
    same content. *)
Lemma parse_runs_agree (str_pair : list N * list N -> list N) (st1 st2 : state T)
    (input_words1 id2label1 decodes1 lens1 input_words2 id2label2 decodes2 lens2 : value)
    (exs : list Example.t) (id2label : gmap Z (list N))
    (dec : list (list (list Z))) (ls : list (list Z)) :
  read_examples (heap st1) input_words1 = Some exs ->
  is_table (heap st1) id2label1 id2label ->
  read_batches (heap st1) decodes1 = Some dec ->
  read_rows (heap st1) lens1 = Some ls ->
  read_examples (heap st2) input_words2 = Some exs ->
  is_table (heap st2) id2label2 id2label ->
  read_batches (heap st2) decodes2 = Some dec ->
  read_rows (heap st2) lens2 = Some ls ->
  let run1 := h_parse_decodes str_pair input_words1 id2label1 decodes1 lens1 st1 in
  let run2 := h_parse_decodes str_pair input_words2 id2label2 decodes2 lens2 st2 in
  heap st1 `prefix_of` heap run1.2 /\
  heap st2 `prefix_of` heap run2.2 /\
  same_outcome read_strs (heap run1.2) run1.1 (heap run2.2) run2.1.
Proof.
  intros Hi1 Ht1 Hd1 Hl1 Hi2 Ht2 Hd2 Hl2. cbv zeta.
  destruct st1 as [h1 t1], st2 as [h2 t2]. cbn [heap] in *.
  destruct (run_parse_decodes str_pair h1 t1 _ _ _ _ _ _ _ _ Hi1 Ht1 Hd1 Hl1)
    as (r1 & h1' & -> & Hp1 & Hout1).
  destruct (run_parse_decodes str_pair h2 t2 _ _ _ _ _ _ _ _ Hi2 Ht2 Hd2 Hl2)
    as (r2 & h2' & -> & Hp2 & Hout2).
  cbn [fst snd heap]. split; [done|]. split; [done|].
  destruct (parse_decodes str_pair exs id2label dec ls) as [outs|e]; [|done].
  cbn [same_outcome]. rewrite (Hout1 _ eq_refl), (Hout2 _ eq_refl). split; [by eexists|done].
Qed.

End TwoRuns.

(** C9: both functions are deterministic, on a store of shared objects and
    with a tokenizer that has a state.  Take two runs of the aligner, from
    any two states of the store and of the tokenizer, in which the example
    has the same content and the tokenizer gives the same answer for its
    tokens: both raise the same exception or both return a dictionary with
    the same content.  Likewise for two runs of the decoder when the four
    arguments have the same content.  A run leaves every object that
    existed before it as it was, so the second run can start from the
    store that the first one left. *)
Theorem two_runs_same_outcome :
  (forall (T : Type) (tokenizer : T -> list (list N) -> Z -> result TokenizedInput.t * T)
      (st1 st2 : state T) (example1 example2 : value) (ex : Example.t)
      (no_entity_id max_seq_len : Z),
    read_example (heap st1) example1 = Some ex ->
    read_example (heap st2) example2 = Some ex ->
    (tokenizer (tok st1) (Example.tokens ex) max_seq_len).1
    = (tokenizer (tok st2) (Example.tokens ex) max_seq_len).1 ->
    let run1 := h_tokenize_and_align_labels tokenizer example1 no_entity_id max_seq_len st1 in
    let run2 := h_tokenize_and_align_labels tokenizer example2 no_entity_id max_seq_len st2 in
    heap st1 `prefix_of` heap run1.2 /\
    heap st2 `prefix_of` heap run2.2 /\
    same_outcome read_tokenized (heap run1.2) run1.1 (heap run2.2) run2.1) /\
  (forall (T : Type) (str_pair : list N * list N -> list N) (st1 st2 : state T)
      (input_words1 id2label1 decodes1 lens1 input_words2 id2label2 decodes2 lens2 : value)
      (exs : list Example.t) (id2label : gmap Z (list N))
      (dec : list (list (list Z))) (ls : list (list Z)),
    read_examples (heap st1) input_words1 = Some exs ->
    is_table (heap st1) id2label1 id2label ->
    read_batches (heap st1) decodes1 = Some dec ->
    read_rows (heap st1) lens1 = Some ls ->
    read_examples (heap st2) input_words2 = Some exs ->
    is_table (heap st2) id2label2 id2label ->
    read_batches (heap st2) decodes2 = Some dec ->
    read_rows (heap st2) lens2 = Some ls ->
    let run1 := h_parse_decodes str_pair input_words1 id2label1 decodes1 lens1 st1 in
    let run2 := h_parse_decodes str_pair input_words2 id2label2 decodes2 lens2 st2 in
    heap st1 `prefix_of` heap run1.2 /\
    heap st2 `prefix_of` heap run2.2 /\
    same_outcome read_strs (heap run1.2) run1.1 (heap run2.2) run2.1).
Proof.
  split.
  - intros T. apply align_runs_agree.
  - intros T. apply parse_runs_agree.
Qed.

(** The two runs on [beijing_store]: the first run of the aligner moves the
    tokenizer's state and returns a new dictionary, the second returns
    another one with the same content; the decoder likewise returns two
    lists with the same content. *)
Lemma two_runs_same_outcome_witness :
  tok first_align.2 <> tok beijing_state /\
  first_align.1 <> second_align.1 /\
  same_outcome read_tokenized (heap first_align.2) first_align.1
                              (heap second_align.2) second_align.1 /\
  first_parse.1 <> second_parse.1 /\
  same_outcome read_strs (heap first_parse.2) first_parse.1
                         (heap second_parse.2) second_parse.1.
Proof.
  split; [vm_compute; discriminate|].
  split; [vm_compute; discriminate|].
  split.
  - apply (proj1 two_runs_same_outcome nat beijing_tokenizer beijing_state first_align.2
             (VRef 2) (VRef 2) beijing 6 128); vm_compute; reflexivity.
  - split; [vm_compute; discriminate|].
    apply (proj2 two_runs_same_outcome nat (fun p => p.1 ++ p.2) beijing_state first_parse.2
             (VRef 3) (VRef 4) (VRef 7) (VRef 9) (VRef 3) (VRef 4) (VRef 7) (VRef 9)
             [beijing] msra_id2label [[beijing_row]] [[6]]);
      first [by (exists 4%nat) | vm_compute; reflexivity].
Defined.

(** * Further properties *)

(** ** The label aligner, on every input *)

(** The kept labels are always a prefix of the labels. *)
Lemma kept_labels_prefix (n : Z) (labels : list Z) :
  exists k : nat, kept_labels n labels = take k labels.
Proof.
  unfold kept_labels. destruct (Z.ltb_spec (n - 2) (len labels)).
  - destruct (Z.le_gt_cases 0 (n - 2)).
    + rewrite py_slice_prefix by done. by eexists.
    + rewrite py_slice_drop_last by lia. by eexists.
  - exists (length labels). by rewrite take_ge.
Qed.

Lemma kept_labels_length (n : Z) (labels : list Z) :
  2 <= n -> len (kept_labels n labels) <= n - 2.
Proof.
  intros Hn. unfold kept_labels. destruct (Z.ltb_spec (n - 2) (len labels)); [|done].
  rewrite py_slice_prefix by lia. unfold len in *. rewrite length_take. lia.
Qed.

Lemma align_shape
    (tokenizer : list pystr -> Z -> result TokenizedInput.t)
    (example : Example.t) (no_entity_id max_seq_len : Z) (ti : TokenizedInput.t) :
  tokenizer (Example.tokens example) max_seq_len = Ok ti ->
  exists (k p : nat),
    tokenize_and_align_labels tokenizer example no_entity_id max_seq_len
      = Ok (TokenizedInput.set_labels ti
              ([no_entity_id] ++ take k (Example.labels example)
               ++ replicate (S p) no_entity_id)).
Proof.
  intros Htok. rewrite (align_unfold _ _ _ _ _ Htok).
  destruct (kept_labels_prefix (len (TokenizedInput.input_ids ti))
              (Example.labels example)) as [k ->].
  by exists k, (Z.to_nat (len (TokenizedInput.input_ids ti)
                          - (len (take k (Example.labels example)) + 2))).
Qed.

(** X1: the aligned label list has as many entries as the tokenizer
    answered sub-tokens exactly when there are at least two sub-tokens;
    below two it is longer. *)
Theorem aligned_length_matches_iff
    (tokenizer : list pystr -> Z -> result TokenizedInput.t)
    (example : Example.t) (no_entity_id max_seq_len : Z) (ti : TokenizedInput.t) :
  tokenizer (Example.tokens example) max_seq_len = Ok ti ->
  exists out : list Z,
    tokenize_and_align_labels tokenizer example no_entity_id max_seq_len
      = Ok (TokenizedInput.set_labels ti out) /\
    (len out = len (TokenizedInput.input_ids ti)
       <-> 2 <= len (TokenizedInput.input_ids ti)) /\
    len (TokenizedInput.input_ids ti) <= len out.
Proof.
  intros Htok. eexists. split; [by apply align_unfold|].
  set (n := len (TokenizedInput.input_ids ti)).
  set (kept := kept_labels n (Example.labels example)).
  pose proof (len_nonneg kept) as Hk.
  assert (Hlen : len ([no_entity_id] ++ kept ++ [no_entity_id]
                      ++ replicate (Z.to_nat (n - (len kept + 2))) no_entity_id)
                 = len kept + 2 + Z.max 0 (n - (len kept + 2))).
  { unfold len. repeat (rewrite length_app || rewrite length_replicate || simpl length).
    lia. }
  rewrite Hlen. split; [split|lia].
  - intros Heq. destruct (Z.le_gt_cases 2 n); [done|lia].
  - intros Hn. pose proof (kept_labels_length n (Example.labels example) Hn).
    fold kept in H. lia.
Qed.

Lemma aligned_length_matches_iff_witness :
  exists out : list Z,
    tokenize_and_align_labels (canned_tokenizer [101; 11; 102])
      (Example.mk [bei] [4]) 6 512
      = Ok (TokenizedInput.set_labels
              {| TokenizedInput.input_ids := [101; 11; 102];
                 TokenizedInput.token_type_ids := [0; 0; 0];
                 TokenizedInput.seq_len := 3;
                 TokenizedInput.labels := None |} out) /\
    len out = 3.
Proof.
  destruct (aligned_length_matches_iff (canned_tokenizer [101; 11; 102])
              (Example.mk [bei] [4]) 6 512
              {| TokenizedInput.input_ids := [101; 11; 102];
                 TokenizedInput.token_type_ids := [0; 0; 0];
                 TokenizedInput.seq_len := 3;
                 TokenizedInput.labels := None |})
    as (out & Hrun & Hiff & _).
  - reflexivity.
  - exists out. split; [exact Hrun|]. apply Hiff. vm_compute. discriminate.
Defined.

(** X2: on every input the aligned label list is [no_entity_id], then a
    prefix of the example's labels, unchanged and in order, then one or
    more [no_entity_id] and nothing else. *)
Theorem aligned_labels_shape
    (tokenizer : list pystr -> Z -> result TokenizedInput.t)
    (example : Example.t) (no_entity_id max_seq_len : Z) (ti : TokenizedInput.t) :
  tokenizer (Example.tokens example) max_seq_len = Ok ti ->
  exists (out : list Z) (k p : nat),
    tokenize_and_align_labels tokenizer example no_entity_id max_seq_len
      = Ok (TokenizedInput.set_labels ti out) /\
    out = [no_entity_id] ++ take k (Example.labels example)
          ++ replicate (S p) no_entity_id /\
    take k (Example.labels example) `prefix_of` Example.labels example.
Proof.
  intros Htok.
  destruct (align_shape tokenizer example no_entity_id max_seq_len ti Htok)
    as (k & p & Hrun).
  eexists _, k, p. split; [exact Hrun|]. split; [done|apply prefix_take].
Qed.

Lemma aligned_labels_shape_witness :
  exists (out : list Z) (k p : nat),
    tokenize_and_align_labels (canned_tokenizer [101; 11; 12; 102])
      (Example.mk [bei; jing; huan] [4; 5; 6]) 6 512
      = Ok (TokenizedInput.set_labels
              {| TokenizedInput.input_ids := [101; 11; 12; 102];
                 TokenizedInput.token_type_ids := [0; 0; 0; 0];
                 TokenizedInput.seq_len := 4;
                 TokenizedInput.labels := None |} out) /\
    out = [6] ++ take k [4; 5; 6] ++ replicate (S p) 6.
Proof.
  destruct (aligned_labels_shape (canned_tokenizer [101; 11; 12; 102])
              (Example.mk [bei; jing; huan] [4; 5; 6]) 6 512
              {| TokenizedInput.input_ids := [101; 11; 12; 102];
                 TokenizedInput.token_type_ids := [0; 0; 0; 0];
                 TokenizedInput.seq_len := 4;
                 TokenizedInput.labels := None |})
    as (out & k & p & Hrun & Hout & _).
  - reflexivity.
  - exists out, k, p. split; [exact Hrun|exact Hout].
Defined.

(** X3: for an example without labels the aligned label list holds only
    [no_entity_id]: one per sub-token, and two when the tokenizer answered
    fewer than two sub-tokens. *)
Theorem align_empty_labels
    (tokenizer : list pystr -> Z -> result TokenizedInput.t)
    (example : Example.t) (no_entity_id max_seq_len : Z) (ti : TokenizedInput.t) :
  tokenizer (Example.tokens example) max_seq_len = Ok ti ->
  Example.labels example = [] ->
  tokenize_and_align_labels tokenizer example no_entity_id max_seq_len
    = Ok (TokenizedInput.set_labels ti
            (replicate (Z.to_nat (Z.max (len (TokenizedInput.input_ids ti)) 2))
               no_entity_id)).
Proof.
  intros Htok Hnil. rewrite (align_unfold _ _ _ _ _ Htok). rewrite Hnil.
  assert (Hkept : kept_labels (len (TokenizedInput.input_ids ti)) [] = []).
  { destruct (kept_labels_prefix (len (TokenizedInput.input_ids ti)) []) as [k ->].
    by rewrite take_nil. }
  rewrite Hkept. do 2 f_equal. cbn [app].
  change (len []) with 0.
  set (n := len (TokenizedInput.input_ids ti)).
  replace (Z.to_nat (Z.max n 2)) with (S (S (Z.to_nat (n - (0 + 2))))) by lia.
  reflexivity.
Qed.

Lemma align_empty_labels_witness :
  tokenize_and_align_labels (canned_tokenizer [101]) (Example.mk [] []) 6 512
    = Ok (TokenizedInput.set_labels
            {| TokenizedInput.input_ids := [101];
               TokenizedInput.token_type_ids := [0];
               TokenizedInput.seq_len := 1;
               TokenizedInput.labels := None |} [6; 6]).
Proof.
  apply (align_empty_labels (canned_tokenizer [101]) (Example.mk [] []) 6 512
           {| TokenizedInput.input_ids := [101];
              TokenizedInput.token_type_ids := [0];
              TokenizedInput.seq_len := 1;
              TokenizedInput.labels := None |}); reflexivity.
Defined.

(** X4: with the [no_entity_id] the driver computes, [len(label_list) - 1],
    the aligner keeps label ids inside the label list: when the list is
    not empty and every label of the example is a position of the list, so
    is every aligned label. *)
Theorem trans_func_labels_in_range
    (tokenizer : list pystr -> Z -> result TokenizedInput.t)
    (label_list : list pystr) (max_seq_length : Z)
    (example : Example.t) (ti : TokenizedInput.t) :
  label_list <> [] ->
  Forall (fun l => 0 <= l < len label_list) (Example.labels example) ->
  tokenizer (Example.tokens example) max_seq_length = Ok ti ->
  exists out : list Z,
    trans_func tokenizer label_list max_seq_length example
      = Ok (TokenizedInput.set_labels ti out) /\
    Forall (fun l => 0 <= l < len label_list) out.
Proof.
  intros Hne Hin Htok. unfold trans_func.
  destruct (align_shape tokenizer example (len label_list - 1) max_seq_length ti Htok)
    as (k & p & Hrun).
  eexists. split; [exact Hrun|].
  assert (Hno : 0 <= len label_list - 1 < len label_list).
  { destruct label_list; [done|]. unfold len. simpl. lia. }
  rewrite !Forall_app. split; [by apply Forall_singleton|].
  split; [by apply Forall_take|by apply Forall_replicate].
Qed.

Lemma trans_func_labels_in_range_witness :
  exists out : list Z,
    trans_func (canned_tokenizer [101; 11; 12; 102])
      [lit "B-LOC"; lit "I-LOC"; lit "O"] 512 (Example.mk [bei; jing] [0; 1])
      = Ok (TokenizedInput.set_labels
              {| TokenizedInput.input_ids := [101; 11; 12; 102];
                 TokenizedInput.token_type_ids := [0; 0; 0; 0];
                 TokenizedInput.seq_len := 4;
                 TokenizedInput.labels := None |} out) /\
    Forall (fun l => 0 <= l < 3) out.
Proof.
  apply (trans_func_labels_in_range (canned_tokenizer [101; 11; 12; 102])
           [lit "B-LOC"; lit "I-LOC"; lit "O"] 512 (Example.mk [bei; jing] [0; 1])
           {| TokenizedInput.input_ids := [101; 11; 12; 102];
              TokenizedInput.token_type_ids := [0; 0; 0; 0];
              TokenizedInput.seq_len := 4;
              TokenizedInput.labels := None |}).
  - discriminate.
  - repeat constructor; vm_compute; discriminate.
  - reflexivity.
Defined.

(** ** The decoding loop against the reference segmentation *)

Lemma sent_out_open_span (st : walk_state) (s : pychar) (ty : pystr) :
  sent_out (open_span st s ty) = sent_out st ++ flush (words st).
Proof.
  unfold open_span, len. cbn [sent_out]. destruct (words st); cbn [flush].
  - by rewrite app_nil_r.
  - done.
Qed.

(** The loop, started in any state, closes the accumulator extended by the
    characters that precede the first opening tag, then one span per
    group; the last of these is the open accumulator. *)
Lemma walk_groups (st : walk_state) (sent : pystr) (tags : list pystr) :
  exists st' : walk_state,
    walk st sent tags = Ok st' /\
    tags_out st' = tags_out st ++ map snd (bio_groups sent tags).2 /\
    sent_out st' ++ [words st'] =
      sent_out st ++
      match (bio_groups sent tags).2 with
      | [] => [words st ++ (bio_groups sent tags).1]
      | _ :: _ => flush (words st ++ (bio_groups sent tags).1)
                  ++ map fst (bio_groups sent tags).2
      end.
Proof.
  revert st tags. induction sent as [|s sent IH]; intros st tags.
  { exists st. cbn. by rewrite !app_nil_r. }
  destruct tags as [|t tags].
  { exists st. cbn. by rewrite !app_nil_r. }
  cbn [walk bio_groups]. rewrite walk_step_ok. cbn [rbind].
  destruct (opens_span t).
  - destruct (IH (open_span st s (recorded_type t)) tags) as (st' & Hw & Ht & Hs).
    exists st'. split; [done|]. cbn [fst snd map].
    split; [rewrite Ht; cbn [open_span tags_out]; by rewrite <- app_assoc|].
    rewrite Hs, sent_out_open_span, app_nil_r, <- app_assoc. f_equal. f_equal.
    cbn [open_span words app].
    by destruct (bio_groups sent tags).2.
  - destruct (IH (extend_span st s) tags) as (st' & Hw & Ht & Hs).
    exists st'. split; [done|]. cbn [fst snd].
    split; [done|]. rewrite Hs. cbn [extend_span words sent_out].
    by rewrite <- !app_assoc.
Qed.

Lemma py_zip_fst_snd {A B : Type} (l : list (A * B)) :
  py_zip (map fst l) (map snd l) = l.
Proof. induction l as [|[a b] l IH]; cbn; [done|]. by rewrite IH. Qed.

Lemma py_zip_take_l {A B : Type} (a : list A) (b : list B) (n : nat) :
  (length b <= n)%nat -> py_zip (take n a) b = py_zip a b.
Proof.
  revert b n. induction a as [|x a IH]; intros b n Hn; [by rewrite take_nil|].
  destruct b as [|y b]; [by destruct n|].
  destruct n as [|n]; [simpl in Hn; lia|]. cbn. rewrite IH; [done|simpl in Hn; lia].
Qed.

Lemma py_zip_length {A B : Type} (a : list A) (b : list B) :
  length a = length b -> length (py_zip a b) = length b.
Proof.
  revert b. induction a as [|x a IH]; intros [|y b]; cbn; try done.
  intros [= H]. by rewrite IH.
Qed.

(** The decoding of one sentence in closed form. *)
Lemma decode_tags_groups (sent : pystr) (tags : list pystr) :
  decode_tags sent tags =
  Ok (take (length (bio_groups sent tags).2)
        (flush (bio_groups sent tags).1 ++ map fst (bio_groups sent tags).2),
      map snd (bio_groups sent tags).2).
Proof.
  destruct (walk_groups walk_init sent tags) as (st' & Hw & Ht & Hs).
  unfold decode_tags. rewrite Hw. cbn [rbind]. cbn [walk_init tags_out sent_out words app] in Ht, Hs.
  set (pre := (bio_groups sent tags).1) in *.
  set (g := (bio_groups sent tags).2) in *.
  assert (Hlen : length (tags_out st') = length g) by by rewrite Ht, length_map.
  unfold fixup, len. rewrite Hlen.
  destruct g as [|x g0] eqn:Hg.
  - apply (f_equal length) in Hs. rewrite length_app in Hs. simpl in Hs.
    destruct (sent_out st') as [|w ws] eqn:Hso; [|simpl in Hs; lia].
    change (Z.of_nat (length (@nil pystr)) <? Z.of_nat (length (@nil (pystr * pystr))))
      with false.
    cbv iota. rewrite Hso, Ht. done.
  - destruct pre as [|c pre0]; cbn [flush app] in Hs.
    + assert (Hl : (length (sent_out st') + 1 = length (x :: g0))%nat).
      { apply (f_equal length) in Hs. rewrite length_app, length_map in Hs.
        exact Hs. }
      destruct (Z.ltb_spec (Z.of_nat (length (sent_out st')))
                  (Z.of_nat (length (x :: g0)))); [|lia].
      cbn [sent_out tags_out flush app]. rewrite Hs, Ht.
      by rewrite take_ge by (rewrite length_map; lia).
    + assert (Hl : (length (sent_out st') = length (x :: g0))%nat).
      { apply (f_equal length) in Hs. rewrite length_app in Hs.
        simpl in Hs. rewrite length_map in Hs. simpl. lia. }
      destruct (Z.ltb_spec (Z.of_nat (length (sent_out st')))
                  (Z.of_nat (length (x :: g0)))); [lia|].
      rewrite Ht. f_equal. f_equal. cbn [flush app].
      rewrite <- Hs. by rewrite take_app_length'.
Qed.

Lemma bio_groups_head_opens (sent : pystr) (tags : list pystr) :
  head_opens tags = true -> (bio_groups sent tags).1 = [].
Proof.
  destruct sent as [|s sent], tags as [|t tags]; try done.
  cbn [head_opens bio_groups]. by intros ->.
Qed.

Lemma bio_groups_head_continues (s : pychar) (sent : pystr) (tags : list pystr) :
  head_opens tags = false ->
  (bio_groups (s :: sent) tags).1 = s :: (bio_groups sent (tail tags)).1 /\
  (bio_groups (s :: sent) tags).2 = (bio_groups sent (tail tags)).2.
Proof.
  destruct tags as [|t tags]; [done|].
  cbn [head_opens bio_groups tail]. by intros ->.
Qed.

Lemma bio_groups_nonempty (sent : pystr) (tags : list pystr) :
  Forall (fun g => g.1 <> []) (bio_groups sent tags).2.
Proof.
  revert tags. induction sent as [|s sent IH]; intros [|t tags]; cbn [bio_groups];
    try by constructor.
  destruct (opens_span t); cbn [snd]; [|apply IH].
  constructor; [done|apply IH].
Qed.

Lemma bio_groups_types (sent : pystr) (tags : list pystr) :
  map snd (bio_groups sent tags).2 =
  map recorded_type (List.filter opens_span (take (length sent) tags)).
Proof.
  revert tags. induction sent as [|s sent IH]; intros [|t tags]; cbn [bio_groups];
    try done.
  cbn [length take List.filter]. destruct (opens_span t); cbn [snd map].
  - by rewrite IH.
  - apply IH.
Qed.

Lemma bio_groups_all_outside (sent : pystr) (n : nat) :
  bio_groups sent (replicate n O_tag)
  = ([], map (fun c => ([c], O_tag)) (take n sent)).
Proof.
  revert n. induction sent as [|s sent IH]; intros [|n]; try done.
  cbn [replicate bio_groups take map]. rewrite IH.
  change (opens_span O_tag) with true. cbv iota. cbn [fst snd].
  change (recorded_type O_tag) with O_tag. done.
Qed.

(** X5: when the first tag opens a span, the pairs returned for an example
    are the reference segmentation of its text: one pair per tag that
    opens a span, holding the character of that tag and the characters of
    the continuation tags that follow it, with the type recorded for the
    opening tag. *)
Theorem decoder_returns_groups
    (input_words : list Example.t) (id2label : gmap Z (list N))
    (decodes : list (list Z)) (idx : nat) (end_ : Z)
    (example : Example.t) (row : list Z) (tags : list pystr) :
  input_words !! idx = Some example ->
  decodes !! idx = Some row ->
  lookup_tags id2label (py_slice 1 end_ row) = Ok tags ->
  head_opens tags = true ->
  decode_example input_words id2label decodes idx end_
    = Ok (bio_groups (py_join (Example.tokens example)) tags).2.
Proof.
  intros Hex Hrow Htags Hhead.
  rewrite (decode_example_unfold _ _ _ _ _ _ _ _ Hex Hrow Htags).
  rewrite decode_tags_groups. cbn [rbind fst snd].
  rewrite (bio_groups_head_opens _ _ Hhead). cbn [flush app].
  rewrite take_ge by by rewrite length_map.
  by rewrite py_zip_fst_snd.
Qed.

Lemma decoder_returns_groups_witness :
  decode_example [beijing] msra_id2label [beijing_row] 0 6
    = Ok [(bei ++ jing, lit "LOC"); (huan, lit "O"); (ying, lit "O"); (ni, lit "O")].
Proof.
  apply (decoder_returns_groups [beijing] msra_id2label [beijing_row] 0 6
           beijing beijing_row
           [lit "B-LOC"; lit "I-LOC"; lit "O"; lit "O"; lit "O"]).
  - reflexivity.
  - reflexivity.
  - vm_compute. reflexivity.
  - reflexivity.
Defined.

(** X6: when the first tag continues a span and the text is not empty, the
    characters up to the first opening tag form a first span, and the
    spans are paired with the types one place late: the first span takes
    the type of the first group, every group's text takes the type of the
    next group, and the text of the last group is not returned. *)
Theorem leading_continuation_shifts_types
    (input_words : list Example.t) (id2label : gmap Z (list N))
    (decodes : list (list Z)) (idx : nat) (end_ : Z)
    (example : Example.t) (row : list Z) (tags : list pystr) :
  input_words !! idx = Some example ->
  decodes !! idx = Some row ->
  lookup_tags id2label (py_slice 1 end_ row) = Ok tags ->
  head_opens tags = false ->
  py_join (Example.tokens example) <> [] ->
  (bio_groups (py_join (Example.tokens example)) tags).1 <> [] /\
  decode_example input_words id2label decodes idx end_
    = Ok (py_zip
            ((bio_groups (py_join (Example.tokens example)) tags).1
             :: map fst (bio_groups (py_join (Example.tokens example)) tags).2)
            (map snd (bio_groups (py_join (Example.tokens example)) tags).2)).
Proof.
  intros Hex Hrow Htags Hhead Hsent.
  rewrite (decode_example_unfold _ _ _ _ _ _ _ _ Hex Hrow Htags).
  rewrite decode_tags_groups. cbn [rbind fst snd].
  destruct (py_join (Example.tokens example)) as [|s sent]; [done|].
  destruct (bio_groups_head_continues s sent tags Hhead) as [Hpre _].
  rewrite Hpre. split; [done|]. cbn [flush app]. rewrite <- Hpre.
  by rewrite py_zip_take_l by by rewrite length_map.
Qed.

Lemma leading_continuation_shifts_types_witness :
  decode_example [Example.mk [bei; jing; huan; ying] []] msra_id2label
    [[6; 5; 4; 5; 6; 6]] 0 5
  = Ok [(bei, lit "LOC"); (jing ++ huan, lit "O")].
Proof.
  destruct (leading_continuation_shifts_types
              [Example.mk [bei; jing; huan; ying] []] msra_id2label
              [[6; 5; 4; 5; 6; 6]] 0 5
              (Example.mk [bei; jing; huan; ying] []) [6; 5; 4; 5; 6; 6]
              [lit "I-LOC"; lit "B-LOC"; lit "I-LOC"; lit "O"])
    as [_ Hrun].
  - reflexivity.
  - reflexivity.
  - vm_compute. reflexivity.
  - reflexivity.
  - discriminate.
  - exact Hrun.
Defined.

(** X7: no span returned by the decoding of a sentence is empty. *)
Theorem returned_spans_nonempty (sent : pystr) (tags : list pystr) :
  exists (spans types : list pystr),
    decode_tags sent tags = Ok (spans, types) /\
    Forall (fun w => w <> []) spans.
Proof.
  eexists _, _. split; [apply decode_tags_groups|].
  apply Forall_take, Forall_app. split.
  - destruct (bio_groups sent tags).1; cbn [flush]; by repeat constructor.
  - pose proof (bio_groups_nonempty sent tags) as H.
    induction H as [|g gs Hg _ IH]; cbn [map]; by constructor.
Qed.

(** X8: the types returned for a sentence are the types recorded for the
    tags that open a span, in order, among the tags that have a character;
    there is one returned span per such tag. *)
Theorem returned_types_are_opening_tags (sent : pystr) (tags : list pystr) :
  exists (spans types : list pystr),
    decode_tags sent tags = Ok (spans, types) /\
    types = map recorded_type (List.filter opens_span (take (length sent) tags)) /\
    length spans = length (List.filter opens_span (take (length sent) tags)).
Proof.
  destruct (decode_tags_spec sent tags) as (st & _ & Hdec & _ & Hlens & _).
  pose proof (decode_tags_groups sent tags) as Hgroups.
  rewrite Hdec in Hgroups. injection Hgroups as Hso Hto.
  eexists _, _. split; [exact Hdec|].
  rewrite bio_groups_types in Hto. split; [exact Hto|].
  by rewrite Hlens, Hto, length_map.
Qed.

(** X9: when every tag is [O], each character that has a tag is returned
    as a span of its own, of type [O]. *)
Theorem all_outside_one_span_per_character (sent : pystr) (n : nat) :
  exists (spans types : list pystr),
    decode_tags sent (replicate n O_tag) = Ok (spans, types) /\
    py_zip spans types = map (fun c => ([c], O_tag)) (take n sent).
Proof.
  eexists _, _. split; [apply decode_tags_groups|].
  rewrite bio_groups_all_outside. cbn [fst snd flush app].
  rewrite take_ge by by rewrite length_map.
  apply py_zip_fst_snd.
Qed.

(** X10: the fix-up of lines 61-62 applies exactly when the loop made at
    least one iteration and the first tag opened a span, whatever the last
    tag is; one type is then waiting for its span. *)
Theorem fixup_applies_iff (sent : pystr) (tags : list pystr) :
  exists st : walk_state,
    walk walk_init sent tags = Ok st /\
    (len (sent_out st) < len (tags_out st)
       <-> sent <> [] /\ tags <> [] /\ head_opens tags = true) /\
    (len (sent_out st) < len (tags_out st)
       -> len (tags_out st) = len (sent_out st) + 1).
Proof.
  destruct (walk_total walk_init sent tags) as [st Hwalk].
  exists st. split; [done|].
  destruct sent as [|s sent].
  { simpl in Hwalk. injection Hwalk as <-. cbn. split; [split|]; [lia|by intros [? _]|lia]. }
  destruct tags as [|t tags].
  { simpl in Hwalk. injection Hwalk as <-. cbn. split; [split|]; [lia|by intros (_ & ? & _)|lia]. }
  pose proof (walk_init_pending _ _ _ _ _ Hwalk) as [_ Hlen].
  cbn [head_opens]. unfold len. destruct (opens_span t).
  - split; [split|]; [done|lia|lia].
  - split; [split|]; [lia|by intros (_ & _ & ?)|lia].
Qed.

(** ** Recorded types *)

Lemma before_sep_no_sep (sep : pychar) (s : pystr) : sep ∉ before_sep sep s.
Proof.
  induction s as [|c s IH]; cbn [before_sep]; [apply not_elem_of_nil|].
  destruct (N.eqb_spec c sep) as [->|Hne]; [apply not_elem_of_nil|].
  apply not_elem_of_cons. split; [congruence|done].
Qed.

Lemma before_sep_prefix (sep : pychar) (s : pystr) : before_sep sep s `prefix_of` s.
Proof.
  induction s as [|c s IH]; cbn [before_sep]; [done|].
  destruct (N.eqb c sep); [apply prefix_nil|by apply prefix_cons].
Qed.

(** X11: the type recorded for a tag that starts with [B-] never contains a
    hyphen: it is the longest hyphen-free prefix of what follows [B-]. *)
Theorem recorded_type_has_no_hyphen (st : walk_state) (s : pychar) (t : pystr) :
  py_startswith t B_prefix = true ->
  exists ty : pystr,
    walk_step st s t = Ok (open_span st s ty) /\
    (hyphen ∉ ty) /\
    ty `prefix_of` drop 2 t /\
    (ty = drop 2 t \/ (ty ++ [hyphen]) `prefix_of` drop 2 t).
Proof.
  intros HB. exists (before_sep hyphen (drop 2 t)).
  split; [|split; [apply before_sep_no_sep|split; [apply before_sep_prefix|]]].
  - rewrite walk_step_ok. unfold opens_span, recorded_type. by rewrite HB.
  - generalize (drop 2 t). intros u. induction u as [|c u IH]; [by left|].
    cbn [before_sep]. destruct (N.eqb_spec c hyphen) as [->|Hne].
    + right. cbn [app]. apply prefix_cons, prefix_nil.
    + destruct IH as [->|IH]; [by left|right]. cbn [app]. by apply prefix_cons.
Qed.

Lemma recorded_type_has_no_hyphen_witness :
  exists ty : pystr,
    walk_step walk_init 0x5317%N (lit "B-PER-X") = Ok (open_span walk_init 0x5317%N ty) /\
    hyphen ∉ ty.
Proof.
  destruct (recorded_type_has_no_hyphen walk_init 0x5317%N (lit "B-PER-X"))
    as (ty & Hstep & Hno & _).
  - reflexivity.
  - exists ty. split; [exact Hstep|exact Hno].
Defined.

(** ** Which positions of a decoded row are read *)

Lemma py_clip_range (n i : Z) : 0 <= n -> 0 <= py_clip n i <= n.
Proof. intros Hn. unfold py_clip. destruct (Z.ltb_spec i 0); lia. Qed.

Lemma py_clip_idem (n i : Z) : 0 <= n -> py_clip n (py_clip n i) = py_clip n i.
Proof.
  intros Hn. pose proof (py_clip_range n i Hn) as Hr.
  unfold py_clip at 1. destruct (Z.ltb_spec (py_clip n i) 0); lia.
Qed.

Lemma py_slice_clip {A : Type} (lo hi : Z) (l : list A) :
  py_slice lo (py_clip (len l) hi) l = py_slice lo hi l.
Proof. unfold py_slice. by rewrite py_clip_idem by apply len_nonneg. Qed.

Lemma py_slice_from_1_agree {A : Type} (e : Z) (l k : list A) :
  0 <= e ->
  (forall i : nat, (1 <= i)%nat -> Z.of_nat i < e -> l !! i = k !! i) ->
  py_slice 1 e l = py_slice 1 e k.
Proof.
  intros He Hagree. rewrite !py_slice_from_1 by done. apply list_eq. intros i.
  destruct (Nat.lt_ge_cases i (Z.to_nat (e - 1))) as [Hlt|Hge].
  - rewrite !lookup_take_lt, !lookup_drop by done. apply Hagree; lia.
  - by rewrite !lookup_take_ge.
Qed.

(** X12: the decoder reads a decoded row only at the positions from 1 up to
    the valid length, excluded: two rows that agree there give the same
    result for the example, whatever they hold at position 0 and from the
    valid length on, and however long they are. *)
Theorem decoder_reads_only_valid_positions
    (input_words : list Example.t) (id2label : gmap Z (list N))
    (decodes decodes' : list (list Z)) (idx : nat) (end_ : Z)
    (row row' : list Z) :
  0 <= end_ ->
  decodes !! idx = Some row ->
  decodes' !! idx = Some row' ->
  (forall i : nat, (1 <= i)%nat -> Z.of_nat i < end_ -> row !! i = row' !! i) ->
  decode_example input_words id2label decodes idx end_
  = decode_example input_words id2label decodes' idx end_.
Proof.
  intros Hend Hrow Hrow' Hagree. unfold decode_example, py_getitem.
  rewrite Hrow, Hrow'. destruct (input_words !! idx); cbn [rbind]; [|done].
  by rewrite (py_slice_from_1_agree end_ row row').
Qed.

Lemma decoder_reads_only_valid_positions_witness :
  decode_example [beijing] msra_id2label [beijing_row] 0 4
  = decode_example [beijing] msra_id2label [[99; 4; 5; 6; 77]] 0 4.
Proof.
  apply (decoder_reads_only_valid_positions [beijing] msra_id2label
           [beijing_row] [[99; 4; 5; 6; 77]] 0 4 beijing_row [99; 4; 5; 6; 77]).
  - lia.
  - reflexivity.
  - reflexivity.
  - intros i Hlo Hhi.
    destruct i as [|[|[|[|i]]]]; [lia|reflexivity|reflexivity|reflexivity|lia].
Defined.

(** X13: the valid length is used through the bounds of a slice: it may be
    replaced by its clipped value, the row length when it is larger and,
    when it is negative, the position counted from the end of the row (0
    when that is negative too). *)
Theorem valid_length_is_clipped
    (input_words : list Example.t) (id2label : gmap Z (list N))
    (decodes : list (list Z)) (idx : nat) (end_ : Z) (row : list Z) :
  decodes !! idx = Some row ->
  decode_example input_words id2label decodes idx end_
  = decode_example input_words id2label decodes idx (py_clip (len row) end_) /\
  (len row <= end_ -> py_clip (len row) end_ = len row) /\
  (- len row <= end_ < 0 -> py_clip (len row) end_ = len row + end_) /\
  (end_ < - len row -> py_clip (len row) end_ = 0).
Proof.
  intros Hrow. pose proof (len_nonneg row) as Hn. split.
  - unfold decode_example, py_getitem. rewrite Hrow.
    destruct (input_words !! idx); cbn [rbind]; [|done].
    by rewrite py_slice_clip.
  - unfold py_clip. destruct (Z.ltb_spec end_ 0); repeat split; lia.
Qed.

Lemma valid_length_is_clipped_witness :
  decode_example [beijing] msra_id2label [beijing_row] 0 (-1)
  = decode_example [beijing] msra_id2label [beijing_row] 0 6.
Proof.
  destruct (valid_length_is_clipped [beijing] msra_id2label [beijing_row] 0 (-1)
              beijing_row) as (Hrun & _ & Hneg & _).
  - reflexivity.
  - rewrite Hrun. rewrite Hneg; [reflexivity|].
    vm_compute. split; [discriminate|reflexivity].
Defined.

(** ** Exceptions of the decoder *)

Lemma lookup_tags_first_missing (id2label : gmap Z (list N))
    (known : list Z) (x : Z) (rest : list Z) :
  Forall (fun k => is_Some (id2label !! k)) known ->
  id2label !! x = None ->
  lookup_tags id2label (known ++ x :: rest) = Raise (KeyError x).
Proof.
  intros Hknown Hx. induction Hknown as [|k known [v Hk] _ IH]; cbn [app lookup_tags].
  - unfold dict_getitem. by rewrite Hx.
  - unfold dict_getitem at 1. rewrite Hk. cbn [rbind]. by rewrite IH.
Qed.

(** X14: when an id at a read position of the row is not a key of
    [id2label], the decoding of the example raises [KeyError] for the
    first such id, and returns nothing for the example. *)
Theorem missing_id_raises_key_error
    (input_words : list Example.t) (id2label : gmap Z (list N))
    (decodes : list (list Z)) (idx : nat) (end_ : Z)
    (example : Example.t) (row : list Z) (known : list Z) (x : Z) (rest : list Z) :
  input_words !! idx = Some example ->
  decodes !! idx = Some row ->
  py_slice 1 end_ row = known ++ x :: rest ->
  Forall (fun k => is_Some (id2label !! k)) known ->
  id2label !! x = None ->
  decode_example input_words id2label decodes idx end_ = Raise (KeyError x).
Proof.
  intros Hex Hrow Hslice Hknown Hx. unfold decode_example, py_getitem.
  rewrite Hex, Hrow. cbn [rbind]. rewrite Hslice.
  by rewrite lookup_tags_first_missing.
Qed.

Lemma missing_id_raises_key_error_witness :
  decode_example [beijing] msra_id2label [[6; 4; 9; 6; 8; 6; 6]] 0 6
  = Raise (KeyError 9).
Proof.
  apply (missing_id_raises_key_error [beijing] msra_id2label
           [[6; 4; 9; 6; 8; 6; 6]] 0 6 beijing [6; 4; 9; 6; 8; 6; 6] [4] 9 [6; 8; 6]).
  - reflexivity.
  - reflexivity.
  - reflexivity.
  - repeat constructor. exists (lit "B-LOC"). vm_compute. reflexivity.
  - vm_compute. reflexivity.
Defined.

(** ** The loop over the examples *)

(** The decoding of an example reads [input_words] and [decodes] at its
    own position only. *)
Lemma decode_example_ext (input_words input_words' : list Example.t)
    (id2label : gmap Z (list N)) (decodes decodes' : list (list Z))
    (idx idx' : nat) (end_ : Z) :
  input_words !! idx = input_words' !! idx' ->
  decodes !! idx = decodes' !! idx' ->
  decode_example input_words id2label decodes idx end_
  = decode_example input_words' id2label decodes' idx' end_.
Proof. intros Hw Hd. unfold decode_example, py_getitem. by rewrite Hw, Hd. Qed.

Lemma decode_from_ext (input_words input_words' : list Example.t)
    (id2label : gmap Z (list N)) (decodes decodes' : list (list Z))
    (idx idx' : nat) (lens : list Z) :
  (forall j : nat, (j < length lens)%nat ->
     input_words !! (idx + j)%nat = input_words' !! (idx' + j)%nat /\
     decodes !! (idx + j)%nat = decodes' !! (idx' + j)%nat) ->
  decode_from input_words id2label decodes idx lens
  = decode_from input_words' id2label decodes' idx' lens.
Proof.
  revert idx idx'. induction lens as [|end_ lens IH]; intros idx idx' Hagree; [done|].
  cbn [decode_from].
  destruct (Hagree 0%nat) as [Hw Hd]; [simpl; lia|]. rewrite !Nat.add_0_r in Hw, Hd.
  rewrite (decode_example_ext _ input_words' _ _ decodes' idx idx' end_ Hw Hd).
  rewrite (IH (S idx) (S idx')); [done|].
  intros j Hj. destruct (Hagree (S j)) as [Hw' Hd']; [simpl; lia|].
  by rewrite !Nat.add_succ_r in Hw', Hd'.
Qed.

Lemma decode_from_ok (input_words : list Example.t) (id2label : gmap Z (list N))
    (decodes : list (list Z)) (idx : nat) (lens : list Z)
    (os : list (list (pystr * pystr))) :
  decode_from input_words id2label decodes idx lens = Ok os ->
  length os = length lens /\
  forall (j : nat) (e : Z), lens !! j = Some e ->
    exists pairs, decode_example input_words id2label decodes (idx + j) e = Ok pairs /\
                  os !! j = Some pairs.
Proof.
  revert idx os. induction lens as [|end_ lens IH]; intros idx os; cbn [decode_from].
  - intros [= <-]. split; [done|]. intros j e Hj. by rewrite lookup_nil in Hj.
  - destruct (decode_example input_words id2label decodes idx end_) as [o|] eqn:He;
      cbn [rbind]; [|done].
    destruct (decode_from input_words id2label decodes (S idx) lens) as [os'|] eqn:Hf;
      cbn [rbind]; [|done].
    intros [= <-]. destruct (IH _ _ Hf) as [Hl Hall]. split; [simpl; lia|].
    intros [|j] e Hj; simpl in Hj.
    + injection Hj as <-. rewrite Nat.add_0_r. eauto.
    + destruct (Hall j e Hj) as (pairs & Hp & Ho).
      rewrite Nat.add_succ_r. eauto.
Qed.

Lemma decode_from_returns (input_words : list Example.t) (id2label : gmap Z (list N))
    (decodes : list (list Z)) (idx : nat) (lens : list Z) :
  (forall (j : nat) (e : Z), lens !! j = Some e ->
     exists pairs, decode_example input_words id2label decodes (idx + j) e = Ok pairs) ->
  exists os, decode_from input_words id2label decodes idx lens = Ok os.
Proof.
  revert idx. induction lens as [|end_ lens IH]; intros idx Hall; cbn [decode_from];
    [by eexists|].
  destruct (Hall 0%nat end_) as [o Ho]; [done|]. rewrite Nat.add_0_r in Ho.
  rewrite Ho. cbn [rbind].
  destruct (IH (S idx)) as [os Hos].
  { intros j e Hj. destruct (Hall (S j) e Hj) as [p Hp].
    rewrite Nat.add_succ_r in Hp. eauto. }
  rewrite Hos. cbn [rbind]. by eexists.
Qed.

Lemma lookup_tags_returns_iff (id2label : gmap Z (list N)) (ids : list Z) :
  (exists tags, lookup_tags id2label ids = Ok tags)
  <-> Forall (fun k => is_Some (id2label !! k)) ids.
Proof.
  induction ids as [|x ids IH]; cbn [lookup_tags].
  - split; [by constructor|by eexists].
  - unfold dict_getitem. split.
    + intros [tags H]. destruct (id2label !! x) as [v|] eqn:Hx; cbn [rbind] in H; [|done].
      constructor; [by eexists|]. apply IH.
      destruct (lookup_tags id2label ids); [by eexists|done].
    + intros H. apply Forall_cons in H as [[v Hv] Hids]. rewrite Hv. cbn [rbind].
      apply IH in Hids as [ts ->]. cbn [rbind]. by eexists.
Qed.

Lemma decode_example_returns_iff (input_words : list Example.t)
    (id2label : gmap Z (list N)) (decodes : list (list Z)) (idx : nat) (end_ : Z) :
  (exists pairs, decode_example input_words id2label decodes idx end_ = Ok pairs)
  <-> exists example row,
        input_words !! idx = Some example /\
        decodes !! idx = Some row /\
        Forall (fun k => is_Some (id2label !! k)) (py_slice 1 end_ row).
Proof.
  unfold decode_example, py_getitem. split.
  - intros [pairs H].
    destruct (input_words !! idx) as [example|]; cbn [rbind] in H; [|done].
    destruct (decodes !! idx) as [row|]; cbn [rbind] in H; [|done].
    exists example, row. split; [done|]. split; [done|].
    apply lookup_tags_returns_iff.
    destruct (lookup_tags id2label (py_slice 1 end_ row)); [by eexists|done].
  - intros (example & row & -> & -> & Hkeys). cbn [rbind].
    apply lookup_tags_returns_iff in Hkeys as [tags ->]. cbn [rbind].
    destruct (decode_tags_total (py_join (Example.tokens example)) tags) as [out ->].
    cbn [rbind]. by eexists.
Qed.

Lemma lookup_map {A B : Type} (f : A -> B) (l : list A) (i : nat) (x : A) :
  l !! i = Some x -> map f l !! i = Some (f x).
Proof.
  revert i. induction l as [|a l IH]; intros [|i]; simpl; try done.
  - by intros [= ->].
  - apply IH.
Qed.

(** X15: when [parse_decodes] returns, it returns one string per valid
    length of the flattened [lens], in order, and the string at position
    [i] renders the pairs decoded for example [i] from row [i] of the
    flattened [decodes]; there are then at least as many examples and rows
    as valid lengths. *)
Theorem parse_decodes_outputs
    (str_pair : pystr * pystr -> pystr)
    (input_words : list Example.t) (id2label : gmap Z (list N))
    (decodes : list (list (list Z))) (lens : list (list Z)) (outputs : list pystr) :
  parse_decodes str_pair input_words id2label decodes lens = Ok outputs ->
  length outputs = length (mjoin lens) /\
  (length (mjoin lens) <= length input_words)%nat /\
  (length (mjoin lens) <= length (mjoin decodes))%nat /\
  forall (i : nat) (e : Z), mjoin lens !! i = Some e ->
    exists pairs,
      decode_example input_words id2label (mjoin decodes) i e = Ok pairs /\
      outputs !! i = Some (py_join (map str_pair pairs)).
Proof.
  unfold parse_decodes, parse_decodes_pairs.
  destruct (decode_from input_words id2label (mjoin decodes) 0 (mjoin lens))
    as [os|] eqn:Hf; cbn [rbind]; [|done].
  intros [= <-]. destruct (decode_from_ok _ _ _ _ _ _ Hf) as [Hlen Hall].
  assert (Hrows : forall i, (i < length (mjoin lens))%nat ->
            is_Some (input_words !! i) /\ is_Some (mjoin decodes !! i)).
  { intros i Hi. apply lookup_lt_is_Some_2 in Hi as [e He].
    destruct (Hall i e He) as (pairs & Hp & _). cbn [Nat.add] in Hp.
    assert (Hret : exists pairs, decode_example input_words id2label (mjoin decodes) i e
                                 = Ok pairs) by eauto.
    apply decode_example_returns_iff in Hret as (ex & row & -> & -> & _).
    split; by eexists. }
  split; [by rewrite length_map|]. split; [|split].
  - destruct (Nat.le_gt_cases (length (mjoin lens)) (length input_words)) as [|Hlt]; [done|].
    destruct (Hrows (length input_words) Hlt) as [Hw _].
    apply lookup_lt_is_Some_1 in Hw. lia.
  - destruct (Nat.le_gt_cases (length (mjoin lens)) (length (mjoin decodes)))
      as [|Hlt]; [done|].
    destruct (Hrows (length (mjoin decodes)) Hlt) as [_ Hd].
    apply lookup_lt_is_Some_1 in Hd. lia.
  - intros i e He. destruct (Hall i e He) as (pairs & Hp & Ho). cbn [Nat.add] in Hp.
    exists pairs. split; [done|].
    by apply (lookup_map (fun pairs => py_join (map str_pair pairs))).
Qed.

Lemma parse_decodes_outputs_witness :
  length [bei ++ jing ++ lit "LOC"; ni ++ lit "O"] = 2%nat /\
  exists pairs,
    decode_example [beijing; Example.mk [ni] [6]] msra_id2label
      [[6; 4; 5; 6]; [6; 6; 6]] 1 2 = Ok pairs /\
    [bei ++ jing ++ lit "LOC"; ni ++ lit "O"] !! 1%nat
      = Some (py_join (map (fun p => p.1 ++ p.2) pairs)).
Proof.
  destruct (parse_decodes_outputs (fun p => p.1 ++ p.2)
              [beijing; Example.mk [ni] [6]] msra_id2label
              [[[6; 4; 5; 6]]; [[6; 6; 6]]] [[3]; [2]]
              [bei ++ jing ++ lit "LOC"; ni ++ lit "O"])
    as (Hlen & _ & _ & Hall).
  - vm_compute. reflexivity.
  - split; [exact Hlen|]. apply (Hall 1%nat 2). reflexivity.
Defined.

(** X16: [parse_decodes] returns exactly when every valid length of the
    flattened [lens] has an example and a row at its position and every id
    of the row at a read position is a key of [id2label]; otherwise it
    raises. *)
Theorem parse_decodes_returns_iff
    (str_pair : pystr * pystr -> pystr)
    (input_words : list Example.t) (id2label : gmap Z (list N))
    (decodes : list (list (list Z))) (lens : list (list Z)) :
  (exists outputs, parse_decodes str_pair input_words id2label decodes lens = Ok outputs)
  <-> forall (i : nat) (e : Z), mjoin lens !! i = Some e ->
        exists example row,
          input_words !! i = Some example /\
          mjoin decodes !! i = Some row /\
          Forall (fun k => is_Some (id2label !! k)) (py_slice 1 e row).
Proof.
  unfold parse_decodes, parse_decodes_pairs. split.
  - intros [outputs H] i e He.
    destruct (decode_from input_words id2label (mjoin decodes) 0 (mjoin lens))
      as [os|] eqn:Hf; cbn [rbind] in H; [|done].
    destruct (decode_from_ok _ _ _ _ _ _ Hf) as [_ Hall].
    destruct (Hall i e He) as (pairs & Hp & _). cbn [Nat.add] in Hp.
    apply decode_example_returns_iff. eauto.
  - intros Hall.
    destruct (decode_from_returns input_words id2label (mjoin decodes) 0 (mjoin lens))
      as [os ->].
    { intros j e Hj. cbn [Nat.add]. apply decode_example_returns_iff. eauto. }
    cbn [rbind]. by eexists.
Qed.

(** X17: examples and rows beyond the number of valid lengths are never
    used: when there are at least as many examples and rows as valid
    lengths, further examples and further batches of rows do not change
    the result. *)
Theorem surplus_examples_and_rows_ignored
    (str_pair : pystr * pystr -> pystr)
    (input_words more_words : list Example.t) (id2label : gmap Z (list N))
    (decodes more_decodes : list (list (list Z))) (lens : list (list Z)) :
  (length (mjoin lens) <= length input_words)%nat ->
  (length (mjoin lens) <= length (mjoin decodes))%nat ->
  parse_decodes str_pair (input_words ++ more_words) id2label
    (decodes ++ more_decodes) lens
  = parse_decodes str_pair input_words id2label decodes lens.
Proof.
  intros Hw Hd. unfold parse_decodes, parse_decodes_pairs. f_equal.
  apply decode_from_ext. intros j Hj. cbn [Nat.add]. rewrite join_app.
  split; apply lookup_app_l; lia.
Qed.

Lemma surplus_examples_and_rows_ignored_witness :
  parse_decodes (fun p => p.1 ++ p.2) ([beijing] ++ [Example.mk [ni] [6]])
    msra_id2label ([[beijing_row]] ++ [[[6; 6; 6]]]) [[6]]
  = parse_decodes (fun p => p.1 ++ p.2) [beijing] msra_id2label [[beijing_row]] [[6]].
Proof.
  apply (surplus_examples_and_rows_ignored (fun p => p.1 ++ p.2)
           [beijing] [Example.mk [ni] [6]] msra_id2label
           [[beijing_row]] [[[6; 6; 6]]] [[6]]); simpl; lia.
Defined.

Lemma decode_from_app (input_words : list Example.t) (id2label : gmap Z (list N))
    (decodes : list (list Z)) (idx : nat) (lens1 lens2 : list Z) :
  decode_from input_words id2label decodes idx (lens1 ++ lens2)
  = (try o1 <- decode_from input_words id2label decodes idx lens1;
     try o2 <- decode_from input_words id2label decodes (idx + length lens1) lens2;
     Ok (o1 ++ o2)).
Proof.
  revert idx. induction lens1 as [|e lens1 IH]; intros idx; cbn [app decode_from length].
  - cbn [rbind]. rewrite Nat.add_0_r.
    by destruct (decode_from input_words id2label decodes idx lens2).
  - destruct (decode_example input_words id2label decodes idx e); cbn [rbind]; [|done].
    rewrite IH. rewrite Nat.add_succ_r.
    destruct (decode_from input_words id2label decodes (S idx) lens1); cbn [rbind]; [|done].
    cbn [Nat.add].
    by destruct (decode_from input_words id2label decodes (S (idx + length lens1)) lens2).
Qed.

(** X18: decoding is compositional over batches.  When the first batches
    hold as many rows as valid lengths, the result for all the batches is
    the result for the first batches followed by the result for the others
    on the examples that remain; it raises what the first of the two
    raises. *)
Theorem parse_decodes_over_batches
    (input_words : list Example.t) (id2label : gmap Z (list N))
    (decodes1 decodes2 : list (list (list Z))) (lens1 lens2 : list (list Z)) :
  length (mjoin decodes1) = length (mjoin lens1) ->
  parse_decodes_pairs input_words id2label (decodes1 ++ decodes2) (lens1 ++ lens2)
  = (try o1 <- parse_decodes_pairs input_words id2label decodes1 lens1;
     try o2 <- parse_decodes_pairs (drop (length (mjoin lens1)) input_words)
                 id2label decodes2 lens2;
     Ok (o1 ++ o2)).
Proof.
  intros Hrows. unfold parse_decodes_pairs. rewrite !join_app, decode_from_app.
  cbn [Nat.add].
  rewrite (decode_from_ext input_words input_words id2label
             (mjoin decodes1 ++ mjoin decodes2) (mjoin decodes1) 0 0 (mjoin lens1)).
  2:{ intros j Hj. split; [done|]. cbn [Nat.add]. apply lookup_app_l. lia. }
  rewrite (decode_from_ext input_words (drop (length (mjoin lens1)) input_words) id2label
             (mjoin decodes1 ++ mjoin decodes2) (mjoin decodes2)
             (length (mjoin lens1)) 0 (mjoin lens2)).
  2:{ intros j Hj. cbn [Nat.add]. split; [by rewrite lookup_drop|].
      rewrite lookup_app_r by lia. f_equal. lia. }
  done.
Qed.

Lemma parse_decodes_over_batches_witness :
  parse_decodes_pairs [beijing; Example.mk [ni] [6]] msra_id2label
    ([[beijing_row]] ++ [[[6; 6; 6]]]) ([[6]] ++ [[2]])
  = Ok ([beijing_spans] ++ [[(ni, lit "O")]]).
Proof.
  rewrite (parse_decodes_over_batches [beijing; Example.mk [ni] [6]] msra_id2label
             [[beijing_row]] [[[6; 6; 6]]] [[6]] [[2]]).
  - vm_compute. reflexivity.
  - reflexivity.
Defined.

(** X19: an example whose valid length is 0 or 1, or whose text is empty
    while all the ids read are known, gets no pair: the slice of its row,
    or its text, is empty and the loop makes no iteration. *)
Theorem nothing_to_walk_no_pairs
    (input_words : list Example.t) (id2label : gmap Z (list N))
    (decodes : list (list Z)) (idx : nat) (end_ : Z)
    (example : Example.t) (row : list Z) :
  input_words !! idx = Some example ->
  decodes !! idx = Some row ->
  (0 <= end_ <= 1 ->
     decode_example input_words id2label decodes idx end_ = Ok []) /\
  (py_join (Example.tokens example) = [] ->
   Forall (fun k => is_Some (id2label !! k)) (py_slice 1 end_ row) ->
     decode_example input_words id2label decodes idx end_ = Ok []).
Proof.
  intros Hex Hrow. split.
  - intros Hend.
    assert (Hslice : py_slice 1 end_ row = []).
    { rewrite py_slice_from_1 by lia.
      replace (Z.to_nat (end_ - 1)) with 0%nat by lia. done. }
    rewrite (decode_example_unfold _ _ _ _ _ example row [] Hex Hrow);
      [|by rewrite Hslice].
    unfold decode_tags.
    by destruct (py_join (Example.tokens example)).
  - intros Hempty Hkeys. apply lookup_tags_returns_iff in Hkeys as [tags Htags].
    rewrite (decode_example_unfold _ _ _ _ _ example row tags Hex Hrow Htags).
    by rewrite Hempty.
Qed.

Lemma nothing_to_walk_no_pairs_witness :
  decode_example [beijing] msra_id2label [beijing_row] 0 1 = Ok [] /\
  decode_example [Example.mk [] []] msra_id2label [beijing_row] 0 6 = Ok [].
Proof.
  split.
  - destruct (nothing_to_walk_no_pairs [beijing] msra_id2label [beijing_row] 0 1
                beijing beijing_row) as [Hshort _]; [reflexivity|reflexivity|].
    apply Hshort. lia.
  - destruct (nothing_to_walk_no_pairs [Example.mk [] []] msra_id2label
                [beijing_row] 0 6 (Example.mk [] []) beijing_row)
      as [_ Hempty]; [reflexivity|reflexivity|].
    apply Hempty; [reflexivity|].
    apply lookup_tags_returns_iff. eexists. vm_compute. reflexivity.
Defined.

(** X20: whenever the first tag of an example continues a span and the
    text is not empty, text is lost: the spans returned are together
    shorter than the characters that have a tag, hence never spell the
    source text. *)
Theorem leading_continuation_loses_text
    (input_words : list Example.t) (id2label : gmap Z (list N))
    (decodes : list (list Z)) (idx : nat) (end_ : Z)
    (example : Example.t) (row : list Z) (tags : list pystr) :
  input_words !! idx = Some example ->
  decodes !! idx = Some row ->
  lookup_tags id2label (py_slice 1 end_ row) = Ok tags ->
  head_opens tags = false ->
  py_join (Example.tokens example) <> [] ->
  exists pairs : list (pystr * pystr),
    decode_example input_words id2label decodes idx end_ = Ok pairs /\
    (length (mjoin (map fst pairs))
       < length (take (length tags) (py_join (Example.tokens example))))%nat /\
    mjoin (map fst pairs) <> py_join (Example.tokens example).
Proof.
  intros Hex Hrow Htags Hhead Hsent.
  rewrite (decode_example_unfold _ _ _ _ _ _ _ _ Hex Hrow Htags).
  destruct (decode_tags_spec (py_join (Example.tokens example)) tags)
    as (st & _ & Hdec & _ & Hlens & _).
  pose proof (leading_continuation_drops _ _ _ Hhead Hsent Hdec) as Hlt.
  rewrite Hdec. cbn [rbind fst snd] in *. eexists. split; [done|].
  rewrite py_zip_fst by done. split; [done|].
  intros Heq. rewrite Heq, length_take in Hlt. lia.
Qed.

Lemma leading_continuation_loses_text_witness :
  exists pairs : list (pystr * pystr),
    decode_example [Example.mk [bei; jing; huan; ying] []] msra_id2label
      [[6; 5; 4; 5; 6; 6]] 0 5 = Ok pairs /\
    mjoin (map fst pairs) <> bei ++ jing ++ huan ++ ying.
Proof.
  destruct (leading_continuation_loses_text
              [Example.mk [bei; jing; huan; ying] []] msra_id2label
              [[6; 5; 4; 5; 6; 6]] 0 5
              (Example.mk [bei; jing; huan; ying] []) [6; 5; 4; 5; 6; 6]
              [lit "I-LOC"; lit "B-LOC"; lit "I-LOC"; lit "O"])
    as (pairs & Hrun & _ & Hne).
  - reflexivity.
  - reflexivity.
  - vm_compute. reflexivity.
  - reflexivity.
  - discriminate.
  - exists pairs. split; [exact Hrun|exact Hne].
Defined.

(** ** The aligner and the decoder together *)

Lemma lookup_tags_app (id2label : gmap Z (list N)) (ids1 ids2 : list Z)
    (tags1 tags2 : list pystr) :
  lookup_tags id2label ids1 = Ok tags1 ->
  lookup_tags id2label ids2 = Ok tags2 ->
  lookup_tags id2label (ids1 ++ ids2) = Ok (tags1 ++ tags2).
Proof.
  revert tags1. induction ids1 as [|x ids1 IH]; intros tags1; cbn [app lookup_tags].
  - by intros [= <-].
  - destruct (dict_getitem id2label x); cbn [rbind]; [|done].
    destruct (lookup_tags id2label ids1) as [ts|]; cbn [rbind]; [|done].
    intros [= <-] H2. by rewrite (IH ts eq_refl H2).
Qed.

Lemma lookup_tags_replicate (id2label : gmap Z (list N)) (x : Z) (t : pystr) (n : nat) :
  id2label !! x = Some t ->
  lookup_tags id2label (replicate n x) = Ok (replicate n t).
Proof.
  intros Hx. induction n as [|n IH]; cbn [replicate lookup_tags]; [done|].
  unfold dict_getitem. rewrite Hx. cbn [rbind]. by rewrite IH.
Qed.

(** X21: the decoder reads the aligner's output back.  When the aligned
    labels of an example are taken as its decoded row, with the number of
    sub-tokens as valid length, the tags walked are the example's own
    labels: the leading [no_entity_id] is skipped by the slice, and the
    closing one and the padding come after the text.  This holds when the
    labels fit ([len(labels) <= n - 2]), are keys of [id2label] as
    [no_entity_id] is, and are at least as many as the characters. *)
Theorem decoder_reads_back_aligned_labels
    (tokenizer : list pystr -> Z -> result TokenizedInput.t)
    (example : Example.t) (no_entity_id max_seq_len : Z) (ti : TokenizedInput.t)
    (id2label : gmap Z (list N)) (tags : list pystr) (o : pystr) :
  tokenizer (Example.tokens example) max_seq_len = Ok ti ->
  2 <= len (TokenizedInput.input_ids ti) ->
  len (Example.labels example) <= len (TokenizedInput.input_ids ti) - 2 ->
  lookup_tags id2label (Example.labels example) = Ok tags ->
  id2label !! no_entity_id = Some o ->
  (length (py_join (Example.tokens example)) <= length (Example.labels example))%nat ->
  exists out : list Z,
    tokenize_and_align_labels tokenizer example no_entity_id max_seq_len
      = Ok (TokenizedInput.set_labels ti out) /\
    decode_example [example] id2label [out] 0 (len (TokenizedInput.input_ids ti))
      = (try r <- decode_tags (py_join (Example.tokens example)) tags;
         Ok (py_zip r.1 r.2)).
Proof.
  intros Htok Hn Hm Htags Hno Hchars.
  eexists. split; [by apply align_unfold|].
  rewrite kept_labels_fit by done.
  set (n := len (TokenizedInput.input_ids ti)) in *.
  set (ls := Example.labels example) in *.
  set (pad := replicate (Z.to_nat (n - (len ls + 2))) no_entity_id).
  assert (Hslice : py_slice 1 n ([no_entity_id] ++ ls ++ [no_entity_id] ++ pad)
                   = ls ++ [no_entity_id] ++ pad).
  { rewrite py_slice_from_1 by lia. cbn [app drop]. rewrite drop_0.
    apply take_ge. unfold len in *.
    repeat (rewrite length_app || simpl length). unfold pad.
    rewrite length_replicate. lia. }
  assert (Hpad : lookup_tags id2label ([no_entity_id] ++ pad)
                 = Ok (replicate (S (Z.to_nat (n - (len ls + 2)))) o)).
  { change ([no_entity_id] ++ pad)
      with (replicate (S (Z.to_nat (n - (len ls + 2)))) no_entity_id).
    by apply lookup_tags_replicate. }
  set (out := [no_entity_id] ++ ls ++ [no_entity_id] ++ pad) in *.
  rewrite (decode_example_unfold [example] id2label [out] 0 n example out
             (tags ++ replicate (S (Z.to_nat (n - (len ls + 2)))) o) eq_refl eq_refl).
  2:{ rewrite Hslice. by apply lookup_tags_app. }
  f_equal. unfold decode_tags. f_equal.
  rewrite <- (walk_take_tags _ _ (tags ++ _) (length tags)).
  - by rewrite take_app_length.
  - left. apply lookup_tags_length in Htags. lia.
Qed.

Lemma decoder_reads_back_aligned_labels_witness :
  exists out : list Z,
    tokenize_and_align_labels (canned_tokenizer [101; 11; 12; 13; 14; 15; 102; 0])
      beijing 6 512
      = Ok (TokenizedInput.set_labels
              {| TokenizedInput.input_ids := [101; 11; 12; 13; 14; 15; 102; 0];
                 TokenizedInput.token_type_ids := [0; 0; 0; 0; 0; 0; 0; 0];
                 TokenizedInput.seq_len := 8;
                 TokenizedInput.labels := None |} out) /\
    decode_example [beijing] msra_id2label [out] 0 8 = Ok beijing_spans.
Proof.
  destruct (decoder_reads_back_aligned_labels
              (canned_tokenizer [101; 11; 12; 13; 14; 15; 102; 0]) beijing 6 512
              {| TokenizedInput.input_ids := [101; 11; 12; 13; 14; 15; 102; 0];
                 TokenizedInput.token_type_ids := [0; 0; 0; 0; 0; 0; 0; 0];
                 TokenizedInput.seq_len := 8;
                 TokenizedInput.labels := None |}
              msra_id2label
              [lit "B-LOC"; lit "I-LOC"; lit "O"; lit "O"; lit "O"] (lit "O"))
    as (out & Hrun & Hback).
  - reflexivity.
  - vm_compute. discriminate.
  - vm_compute. discriminate.
  - vm_compute. reflexivity.
  - vm_compute. reflexivity.
  - vm_compute. lia.
  - exists out. split; [exact Hrun|]. refine (eq_trans Hback _).
    vm_compute. reflexivity.
Defined.
